(** * Open-OTP: a shallow embedding of [src/index.js]

    The development follows the layers of the program:

    - [JS]       the fragment of JavaScript semantics the source relies on
                 (values, strings as UTF-16 code units, int32 bit operators,
                 [Buffer] cells, [ToString], truthiness);
    - [Regex]    regular expressions with anchors on both sides, as used by
                 [RegExp.prototype.test] in the two validity checks;
    - [Utf8], [Base64]  the two [Buffer] conversions the source calls;
    - [Base32]   the [thirty-two] package ([encode] and [decode] loops);
    - [Sha1]     HMAC-SHA-1, one instance of [crypto.createHmac];
    - [Eff]      a writer/error monad: the trace of calls into the platform
                 ([Date.now], [base32.decode], [crypto.createHmac], ...)
                 and the exception raised, if any;
    - the class [TOTP] and the function [generateSecret] themselves;
    - [Rfc4226], [Rfc4648]  the two standards as the specification words
                 them, which the program is compared with.

    [crypto], [Buffer] and [thirty-two] are what the program imports, not
    files of the repository: they are modelled after the platform and the
    package, and [crypto.createHmac] is a parameter of the engine.

    Numbers are integers ([Z]); the rounding of IEEE doubles is not part
    of the model. The constructor's [window] and [interval] are integers
    and [otpLength] is a natural number. *)

From Stdlib Require Import String Ascii ZArith Lia Bool List.
From Stdlib Require Import Strings.Byte.
Import ListNotations.
Local Open Scope Z_scope.

(* ================================================================== *)
(** ** JavaScript values and operators *)

Module JS.

(** A string is its sequence of UTF-16 code units. *)
Definition jsstring := list Z.

Definition code_unit (a : ascii) : Z := Z.of_N (N_of_ascii a).

(** [lit "abc"] is the JavaScript string literal ['abc']. *)
Definition lit (s : string) : jsstring := map code_unit (list_ascii_of_string s).

(** The content of a [Buffer] cell, and the store [buf[i] = v], which keeps
    the low eight bits of [v]. *)
Definition b2z (b : byte) : Z := Z.of_N (Byte.to_N b).

Definition z2b (z : Z) : byte :=
  match Byte.of_N (Z.to_N (z mod 256)) with
  | Some b => b
  | None => x00
  end.

(** [buf[i]] reads [undefined] out of range; [buf[i] = v] is ignored there. *)
Definition buf_get (buf : list byte) (i : nat) : option byte := nth_error buf i.

Fixpoint buf_set (buf : list byte) (i : nat) (v : byte) : list byte :=
  match buf, i with
  | [], _ => []
  | _ :: t, O => v :: t
  | h :: t, S i' => h :: buf_set t i' v
  end.

(** [ToNumber] of a cell read, as the bit operators see it: [undefined]
    becomes [NaN], which [ToInt32] maps to [0]. *)
Definition num (o : option byte) : Z :=
  match o with
  | Some b => b2z b
  | None => 0
  end.

Definition to_int32 (z : Z) : Z := (z + 2 ^ 31) mod 2 ^ 32 - 2 ^ 31.
Definition to_uint32 (z : Z) : Z := z mod 2 ^ 32.

(** [a & b], [a | b], [a << n], [a >> n], [a >>> n]. *)
Definition band (a b : Z) : Z := Z.land (to_int32 a) (to_int32 b).
Definition bor (a b : Z) : Z := Z.lor (to_int32 a) (to_int32 b).
Definition shl (a n : Z) : Z := to_int32 (Z.shiftl (to_int32 a) (to_uint32 n mod 32)).
Definition shr (a n : Z) : Z := Z.shiftr (to_int32 a) (to_uint32 n mod 32).
Definition ushr (a n : Z) : Z := Z.shiftr (to_uint32 a) (to_uint32 n mod 32).

(** [a % b] takes the sign of the dividend. *)
Definition rem (a b : Z) : Z := Z.rem a b.

(** The values that reach the program. [JNumber] carries an integer. *)
Inductive jsval :=
| JUndefined
| JNull
| JNumber (n : Z)
| JString (s : jsstring)
| JBuffer (b : list byte).

Inductive jstype := TUndefined | TObject | TNumber | TString.

Definition typeof (v : jsval) : jstype :=
  match v with
  | JUndefined => TUndefined
  | JNull => TObject
  | JNumber _ => TNumber
  | JString _ => TString
  | JBuffer _ => TObject
  end.

(** [typeof v === 'string'] *)
Definition is_string (v : jsval) : bool :=
  match typeof v with TString => true | _ => false end.

(** Decimal digits of a non-negative integer, most significant first. *)
Fixpoint digits_fuel (fuel : nat) (n : Z) (acc : jsstring) : jsstring :=
  match fuel with
  | O => acc
  | S fuel' =>
      if n <? 10 then (48 + n) :: acc
      else digits_fuel fuel' (n / 10) ((48 + n mod 10) :: acc)
  end.

(** [String(n)] for an integer below [10^21] in magnitude. *)
Definition decimal (n : Z) : jsstring :=
  if n <? 0 then 45 :: digits_fuel (S (Z.to_nat (Z.log2 (- n)))) (- n) []
  else digits_fuel (S (Z.to_nat (Z.log2 n))) n [].

(** [parseInt(s, 10)] on a string of decimal digits, which is all the
    program applies it to. The double that [parseInt] returns is this
    integer when it is below [2^53] and is at least [2^53] otherwise, so
    [===] against a code, which is below [2^31], is equality with this
    integer. *)
Definition parseInt10 (s : jsstring) : Z :=
  fold_left (fun acc c => acc * 10 + (c - 48)) s 0.

End JS.

(* ================================================================== *)
(** ** Regular expressions *)

Module Regex.
Import JS.

Inductive regex :=
| Void
| Eps
| Class (p : Z -> bool)
| Seq (r1 r2 : regex)
| Alt (r1 r2 : regex)
| Star (r : regex).

(** [r+] *)
Definition Plus (r : regex) : regex := Seq r (Star r).

Fixpoint nullable (r : regex) : bool :=
  match r with
  | Void => false
  | Eps => true
  | Class _ => false
  | Seq r1 r2 => nullable r1 && nullable r2
  | Alt r1 r2 => nullable r1 || nullable r2
  | Star _ => true
  end.

Fixpoint deriv (c : Z) (r : regex) : regex :=
  match r with
  | Void => Void
  | Eps => Void
  | Class p => if p c then Eps else Void
  | Seq r1 r2 =>
      if nullable r1 then Alt (Seq (deriv c r1) r2) (deriv c r2)
      else Seq (deriv c r1) r2
  | Alt r1 r2 => Alt (deriv c r1) (deriv c r2)
  | Star r1 => Seq (deriv c r1) (Star r1)
  end.

(** [/^r$/.test(s)]: the whole of [s] is in the language of [r]. *)
Fixpoint test (r : regex) (s : jsstring) : bool :=
  match s with
  | [] => nullable r
  | c :: s' => test (deriv c r) s'
  end.

(** The language of a regular expression. *)
Inductive lang : regex -> jsstring -> Prop :=
| LEps : lang Eps []
| LClass p c : p c = true -> lang (Class p) [c]
| LSeq r1 r2 s1 s2 : lang r1 s1 -> lang r2 s2 -> lang (Seq r1 r2) (s1 ++ s2)
| LAltL r1 r2 s : lang r1 s -> lang (Alt r1 r2) s
| LAltR r1 r2 s : lang r2 s -> lang (Alt r1 r2) s
| LStarNil r : lang (Star r) []
| LStarApp r s1 s2 : lang r s1 -> lang (Star r) s2 -> lang (Star r) (s1 ++ s2).

(** The character classes of the source. *)
Definition in_range (lo hi c : Z) : bool := (lo <=? c) && (c <=? hi).

(** [[A-Z2-7]] *)
Definition base32_char (c : Z) : bool := in_range 65 90 c || in_range 50 55 c.
(** [=] *)
Definition equals_char (c : Z) : bool := c =? 61.
(** [\d] *)
Definition digit_char (c : Z) : bool := in_range 48 57 c.

(** [/^[A-Z2-7]+=*$/] *)
Definition secret_re : regex := Seq (Plus (Class base32_char)) (Star (Class equals_char)).
(** [/^\d+$/] *)
Definition otp_re : regex := Plus (Class digit_char).

End Regex.

(* ================================================================== *)
(** ** UTF-8: [Buffer.from(string)] and [buffer.toString()] *)

Module Utf8.
Import JS.

Definition is_high_surrogate (c : Z) : bool := (0xD800 <=? c) && (c <=? 0xDBFF).
Definition is_low_surrogate (c : Z) : bool := (0xDC00 <=? c) && (c <=? 0xDFFF).

(** U+FFFD, which stands for a lone surrogate. *)
Definition replacement : list byte := [xef; xbf; xbd].

Definition encode_point (cp : Z) : list byte :=
  if cp <? 0x80 then [z2b cp]
  else if cp <? 0x800 then
    [z2b (Z.lor 0xC0 (Z.shiftr cp 6)); z2b (Z.lor 0x80 (Z.land cp 0x3F))]
  else if cp <? 0x10000 then
    [z2b (Z.lor 0xE0 (Z.shiftr cp 12));
     z2b (Z.lor 0x80 (Z.land (Z.shiftr cp 6) 0x3F));
     z2b (Z.lor 0x80 (Z.land cp 0x3F))]
  else
    [z2b (Z.lor 0xF0 (Z.shiftr cp 18));
     z2b (Z.lor 0x80 (Z.land (Z.shiftr cp 12) 0x3F));
     z2b (Z.lor 0x80 (Z.land (Z.shiftr cp 6) 0x3F));
     z2b (Z.lor 0x80 (Z.land cp 0x3F))].

(** [Buffer.from(s)], that is [Buffer.from(s, 'utf8')]. *)
Fixpoint encode (s : jsstring) : list byte :=
  match s with
  | [] => []
  | c :: rest =>
      if is_high_surrogate c then
        match rest with
        | d :: rest' =>
            if is_low_surrogate d
            then encode_point (0x10000 + (c - 0xD800) * 0x400 + (d - 0xDC00)) ++ encode rest'
            else replacement ++ encode rest
        | [] => replacement
        end
      else if is_low_surrogate c then replacement ++ encode rest
      else encode_point c ++ encode rest
  end.

(** The decoder of the Encoding Standard: [needed] continuation bytes are
    awaited, the next one within [lower..upper]. *)
Record dstate := { needed : nat; point : Z; lower : Z; upper : Z }.

Definition idle : dstate := {| needed := 0; point := 0; lower := 0x80; upper := 0xBF |}.

Fixpoint decode_points (st : dstate) (bs : list byte) : list Z :=
  match bs with
  | [] => match needed st with O => [] | S _ => [0xFFFD] end
  | b :: rest =>
      let v := b2z b in
      let lead :=
        if v <=? 0x7F then v :: decode_points idle rest
        else if (0xC2 <=? v) && (v <=? 0xDF) then
          decode_points {| needed := 1; point := Z.land v 0x1F; lower := 0x80; upper := 0xBF |} rest
        else if (0xE0 <=? v) && (v <=? 0xEF) then
          decode_points {| needed := 2; point := Z.land v 0xF;
                           lower := if v =? 0xE0 then 0xA0 else 0x80;
                           upper := if v =? 0xED then 0x9F else 0xBF |} rest
        else if (0xF0 <=? v) && (v <=? 0xF4) then
          decode_points {| needed := 3; point := Z.land v 0x7;
                           lower := if v =? 0xF0 then 0x90 else 0x80;
                           upper := if v =? 0xF4 then 0x8F else 0xBF |} rest
        else 0xFFFD :: decode_points idle rest in
      match needed st with
      | O => lead
      | S n =>
          if (lower st <=? v) && (v <=? upper st) then
            let p := Z.lor (Z.shiftl (point st) 6) (Z.land v 0x3F) in
            match n with
            | O => p :: decode_points idle rest
            | S _ => decode_points {| needed := n; point := p; lower := 0x80; upper := 0xBF |} rest
            end
          else 0xFFFD :: lead
      end
  end.

Definition units_of_point (cp : Z) : jsstring :=
  if cp <? 0x10000 then [cp]
  else [0xD800 + Z.shiftr (cp - 0x10000) 10; 0xDC00 + Z.land (cp - 0x10000) 0x3FF].

(** [buf.toString()], that is [buf.toString('utf8')]. *)
Definition decode (bs : list byte) : jsstring := flat_map units_of_point (decode_points idle bs).

End Utf8.

(* ================================================================== *)
(** ** The rest of [ToString] and [ToBoolean] *)

Module Coerce.
Import JS.

(** [String(v)], as [RegExp.prototype.test] and [+=] apply it. *)
Definition ToString (v : jsval) : jsstring :=
  match v with
  | JUndefined => lit "undefined"
  | JNull => lit "null"
  | JNumber n => decimal n
  | JString s => s
  | JBuffer b => Utf8.decode b
  end.

(** The truth value of [v] in [if (v)]. *)
Definition ToBoolean (v : jsval) : bool :=
  match v with
  | JUndefined => false
  | JNull => false
  | JNumber n => negb (n =? 0)
  | JString s => match s with [] => false | _ => true end
  | JBuffer _ => true
  end.

End Coerce.

(* ================================================================== *)
(** ** [buf.toString('base64')] *)

Module Base64.
Import JS.

Definition alphabet : jsstring :=
  lit "ABCDEFGHIJKLMNOPQRSTUVWXYZabcdefghijklmnopqrstuvwxyz0123456789+/".

Definition sextet (n : Z) : Z := nth (Z.to_nat (Z.land n 63)) alphabet 0.

Fixpoint toString (bs : list byte) : jsstring :=
  match bs with
  | [] => []
  | [a] =>
      let n := Z.shiftl (b2z a) 16 in
      [sextet (Z.shiftr n 18); sextet (Z.shiftr n 12); 61; 61]
  | [a; b] =>
      let n := Z.lor (Z.shiftl (b2z a) 16) (Z.shiftl (b2z b) 8) in
      [sextet (Z.shiftr n 18); sextet (Z.shiftr n 12); sextet (Z.shiftr n 6); 61]
  | a :: b :: c :: rest =>
      let n := Z.lor (Z.lor (Z.shiftl (b2z a) 16) (Z.shiftl (b2z b) 8)) (b2z c) in
      sextet (Z.shiftr n 18) :: sextet (Z.shiftr n 12) :: sextet (Z.shiftr n 6) :: sextet n
        :: toString rest
  end.

End Base64.

(* ================================================================== *)
(** ** Outcomes and the trace of platform calls *)

Module Eff.
Import JS.

(** What a call throws. [Error] is a plain [Error] of the platform or of a
    package. *)
Inductive exn := InvalidSecretError | TypeError | RangeError | Error.

(** A call into the platform or into a package. *)
Inductive event :=
| DateNow
| Base32Decode (encoded : jsval)
| CreateHmac (algorithm : string) (key : list byte)
| HmacUpdate (data : list byte)
| RandomBytes (n : Z)
| Base32Encode (plain : jsval).

(** How a call ends. [OutOfFuel] is a loop of the model that was cut. *)
Inductive outcome (A : Type) :=
| Return (a : A)
| Throw (e : exn)
| OutOfFuel.
Arguments Return {A} a.
Arguments Throw {A} e.
Arguments OutOfFuel {A}.

Definition M (A : Type) : Type := list event * outcome A.

Definition ret {A} (a : A) : M A := ([], Return a).
Definition throw {A} (e : exn) : M A := ([], Throw e).
Definition emit (ev : event) : M unit := ([ev], Return tt).
Definition lift {A} (o : outcome A) : M A := ([], o).

Definition bind {A B} (m : M A) (k : A -> M B) : M B :=
  match m with
  | (t1, Return a) => let (t2, r) := k a in (t1 ++ t2, r)
  | (t1, Throw e) => (t1, Throw e)
  | (t1, OutOfFuel) => (t1, OutOfFuel)
  end.

Definition trace {A} (m : M A) : list event := fst m.
Definition result {A} (m : M A) : outcome A := snd m.

Declare Scope eff_scope.
Delimit Scope eff_scope with eff.
Notation "x <- m ;; k" := (bind m (fun x => k))
  (at level 61, m at next level, right associativity) : eff_scope.
Notation "m ;;; k" := (bind m (fun _ => k))
  (at level 61, right associativity) : eff_scope.

End Eff.

(* ================================================================== *)
(** ** The package [thirty-two]

    [encode] and [decode] follow the package's two loops statement by
    statement; both return a [Buffer]. *)

Module Base32.
Import JS Eff.

Definition charTable : jsstring := lit "ABCDEFGHIJKLMNOPQRSTUVWXYZ234567".

Definition byteTable : list Z :=
  [ 0xff; 0xff; 0x1a; 0x1b; 0x1c; 0x1d; 0x1e; 0x1f;
    0xff; 0xff; 0xff; 0xff; 0xff; 0xff; 0xff; 0xff;
    0xff; 0x00; 0x01; 0x02; 0x03; 0x04; 0x05; 0x06;
    0x07; 0x08; 0x09; 0x0a; 0x0b; 0x0c; 0x0d; 0x0e;
    0x0f; 0x10; 0x11; 0x12; 0x13; 0x14; 0x15; 0x16;
    0x17; 0x18; 0x19; 0xff; 0xff; 0xff; 0xff; 0xff;
    0xff; 0x00; 0x01; 0x02; 0x03; 0x04; 0x05; 0x06;
    0x07; 0x08; 0x09; 0x0a; 0x0b; 0x0c; 0x0d; 0x0e;
    0x0f; 0x10; 0x11; 0x12; 0x13; 0x14; 0x15; 0x16;
    0x17; 0x18; 0x19; 0xff; 0xff; 0xff; 0xff; 0xff ].

(** [s.charCodeAt(i)]; [NaN] out of range, which a [Buffer] stores as 0. *)
Definition charCodeAt (s : jsstring) (i : Z) : Z :=
  if i <? 0 then 0 else nth (Z.to_nat i) s 0.

(** [byteTable[i]]; [undefined] out of range, 0 to the bit operators. *)
Definition byteTableAt (i : Z) : Z :=
  if i <? 0 then 0 else nth (Z.to_nat i) byteTable 0.

Definition quintetCount (buff : list byte) : nat :=
  let quintets := (length buff / 5)%nat in
  if (length buff mod 5 =? 0)%nat then quintets else S quintets.

(** *** [encode] *)

Record enc_state := {
  e_i : nat;
  e_j : nat;
  e_shiftIndex : Z;
  e_digit : Z;
  e_encoded : list byte
}.

(** One turn of [while (i < plain.length)]. *)
Definition encode_step (plain : list byte) (st : enc_state) : enc_state :=
  let current := num (buf_get plain (e_i st)) in
  let st' :=
    if 3 <? e_shiftIndex st then
      let digit := band current (shr 0xff (e_shiftIndex st)) in
      let shiftIndex := rem (e_shiftIndex st + 5) 8 in
      let next := if (e_i st + 1 <? length plain)%nat
                  then num (buf_get plain (e_i st + 1)) else 0 in
      let digit := bor (shl digit shiftIndex) (shr next (8 - shiftIndex)) in
      {| e_i := S (e_i st); e_j := e_j st; e_shiftIndex := shiftIndex;
         e_digit := digit; e_encoded := e_encoded st |}
    else
      let digit := band (shr current (8 - (e_shiftIndex st + 5))) 0x1f in
      let shiftIndex := rem (e_shiftIndex st + 5) 8 in
      {| e_i := if shiftIndex =? 0 then S (e_i st) else e_i st;
         e_j := e_j st; e_shiftIndex := shiftIndex;
         e_digit := digit; e_encoded := e_encoded st |} in
  {| e_i := e_i st'; e_j := S (e_j st'); e_shiftIndex := e_shiftIndex st';
     e_digit := e_digit st';
     e_encoded := buf_set (e_encoded st') (e_j st') (z2b (charCodeAt charTable (e_digit st'))) |}.

Fixpoint encode_while (fuel : nat) (plain : list byte) (st : enc_state) : outcome enc_state :=
  if (e_i st <? length plain)%nat then
    match fuel with
    | O => OutOfFuel
    | S fuel' => encode_while fuel' plain (encode_step plain st)
    end
  else Return st.

(** [for (i = j; i < encoded.length; i++) encoded[i] = 0x3d], [n] turns. *)
Fixpoint encode_fill (n : nat) (i : nat) (encoded : list byte) : list byte :=
  match n with
  | O => encoded
  | S n' => encode_fill n' (S i) (buf_set encoded i x3d)
  end.

Definition encode_bytes (plain : list byte) : outcome (list byte) :=
  let encoded := repeat x00 (quintetCount plain * 8) in
  match encode_while (length encoded) plain
          {| e_i := 0; e_j := 0; e_shiftIndex := 0; e_digit := 0; e_encoded := encoded |} with
  | Return st => Return (encode_fill (length (e_encoded st) - e_j st) (e_j st) (e_encoded st))
  | Throw e => Throw e
  | OutOfFuel => OutOfFuel
  end.

(** [base32.encode(plain)]: a [Buffer]. *)
Definition encode (plain : jsval) : outcome (list byte) :=
  match plain with
  | JBuffer b => encode_bytes b
  | JString s => encode_bytes (Utf8.encode s)
  | _ => Throw TypeError
  end.

(** *** [decode] *)

Record dec_state := {
  d_shiftIndex : Z;
  d_plainChar : Z;
  d_plainPos : nat;
  d_decoded : list byte
}.

(** The body of the [for] loop once [encodedByte < byteTable.length].
    [plainChar] starts [undefined] and is first used under [|=], where it
    counts as 0. *)
Definition decode_step (encodedByte : Z) (st : dec_state) : dec_state :=
  let plainDigit := byteTableAt encodedByte in
  if d_shiftIndex st <=? 3 then
    let shiftIndex := rem (d_shiftIndex st + 5) 8 in
    if shiftIndex =? 0 then
      let plainChar := bor (d_plainChar st) plainDigit in
      {| d_shiftIndex := shiftIndex; d_plainChar := 0;
         d_plainPos := S (d_plainPos st);
         d_decoded := buf_set (d_decoded st) (d_plainPos st) (z2b plainChar) |}
    else
      {| d_shiftIndex := shiftIndex;
         d_plainChar := bor (d_plainChar st) (band 0xff (shl plainDigit (8 - shiftIndex)));
         d_plainPos := d_plainPos st;
         d_decoded := d_decoded st |}
  else
    let shiftIndex := rem (d_shiftIndex st + 5) 8 in
    let plainChar := bor (d_plainChar st) (band 0xff (ushr plainDigit shiftIndex)) in
    {| d_shiftIndex := shiftIndex;
       d_plainChar := band 0xff (shl plainDigit (8 - shiftIndex));
       d_plainPos := S (d_plainPos st);
       d_decoded := buf_set (d_decoded st) (d_plainPos st) (z2b plainChar) |}.

(** [for (var i = 0; i < encoded.length; i++)], on the bytes from [i] on. *)
Fixpoint decode_loop (encoded : list byte) (st : dec_state) : outcome dec_state :=
  match encoded with
  | [] => Return st
  | b :: rest =>
      if b2z b =? 0x3d then Return st
      else
        let encodedByte := b2z b - 0x30 in
        if encodedByte <? Z.of_nat (length byteTable)
        then decode_loop rest (decode_step encodedByte st)
        else Throw Error
  end.

Definition decode_bytes (encoded : list byte) : outcome (list byte) :=
  let decoded := repeat x00 (Z.to_nat ((Z.of_nat (length encoded) * 5 + 7) / 8)) in
  match decode_loop encoded
          {| d_shiftIndex := 0; d_plainChar := 0; d_plainPos := 0; d_decoded := decoded |} with
  | Return st => Return (firstn (d_plainPos st) (d_decoded st))
  | Throw e => Throw e
  | OutOfFuel => OutOfFuel
  end.

(** [base32.decode(encoded)] *)
Definition decode (encoded : jsval) : outcome (list byte) :=
  match encoded with
  | JBuffer b => decode_bytes b
  | JString s => decode_bytes (Utf8.encode s)
  | _ => Throw TypeError
  end.

End Base32.

(* ================================================================== *)
(** ** HMAC-SHA-1 (FIPS 180-4, RFC 2104)

    What [crypto.createHmac('sha1', key).update(data).digest()] computes. *)

Module Sha1.
Import JS.

Definition w32 (z : Z) : Z := z mod 2 ^ 32.
Definition add32 (a b : Z) : Z := w32 (a + b).
Definition rotl (n x : Z) : Z := w32 (Z.lor (Z.shiftl x n) (Z.shiftr x (32 - n))).
Definition not32 (x : Z) : Z := Z.lxor x 0xffffffff.

Definition be_bytes32 (x : Z) : list byte :=
  [z2b (Z.shiftr x 24); z2b (Z.shiftr x 16); z2b (Z.shiftr x 8); z2b x].

Definition be_bytes64 (x : Z) : list byte :=
  be_bytes32 (Z.shiftr x 32) ++ be_bytes32 (Z.land x 0xffffffff).

(** The message, a 1 bit, zeros up to 56 bytes modulo 64, the bit length. *)
Definition pad (msg : list byte) : list byte :=
  let len := Z.of_nat (length msg) in
  msg ++ [x80] ++ repeat x00 (Z.to_nat ((55 - len) mod 64)) ++ be_bytes64 (8 * len).

Fixpoint words (bs : list byte) : list Z :=
  match bs with
  | a :: b :: c :: d :: rest =>
      Z.lor (Z.lor (Z.lor (Z.shiftl (b2z a) 24) (Z.shiftl (b2z b) 16)) (Z.shiftl (b2z c) 8)) (b2z d)
        :: words rest
  | _ => []
  end.

(** The message schedule, newest word first. *)
Fixpoint schedule (n : nat) (rw : list Z) : list Z :=
  match n with
  | O => rw
  | S n' =>
      schedule n'
        (rotl 1 (Z.lxor (Z.lxor (Z.lxor (nth 2 rw 0) (nth 7 rw 0)) (nth 13 rw 0)) (nth 15 rw 0))
           :: rw)
  end.

Record hash := { ha : Z; hb : Z; hc : Z; hd : Z; he : Z }.

Definition f (t : nat) (b c d : Z) : Z :=
  if (t <? 20)%nat then Z.lor (Z.land b c) (Z.land (not32 b) d)
  else if (t <? 40)%nat then Z.lxor (Z.lxor b c) d
  else if (t <? 60)%nat then Z.lor (Z.lor (Z.land b c) (Z.land b d)) (Z.land c d)
  else Z.lxor (Z.lxor b c) d.

Definition k (t : nat) : Z :=
  if (t <? 20)%nat then 0x5a827999
  else if (t <? 40)%nat then 0x6ed9eba1
  else if (t <? 60)%nat then 0x8f1bbcdc
  else 0xca62c1d6.

Fixpoint rounds (t : nat) (ws : list Z) (s : hash) : hash :=
  match ws with
  | [] => s
  | w :: ws' =>
      let temp :=
        add32 (add32 (add32 (add32 (rotl 5 (ha s)) (f t (hb s) (hc s) (hd s))) (he s)) (k t)) w in
      rounds (S t) ws'
        {| ha := temp; hb := ha s; hc := rotl 30 (hb s); hd := hc s; he := hd s |}
  end.

Definition compress (h : hash) (block : list Z) : hash :=
  let s := rounds 0 (rev (schedule 64 (rev block))) h in
  {| ha := add32 (ha h) (ha s); hb := add32 (hb h) (hb s); hc := add32 (hc h) (hc s);
     hd := add32 (hd h) (hd s); he := add32 (he h) (he s) |}.

Fixpoint blocks (n : nat) (ws : list Z) (h : hash) : hash :=
  match n with
  | O => h
  | S n' => blocks n' (skipn 16 ws) (compress h (firstn 16 ws))
  end.

Definition init : hash :=
  {| ha := 0x67452301; hb := 0xefcdab89; hc := 0x98badcfe; hd := 0x10325476; he := 0xc3d2e1f0 |}.

Definition sha1 (msg : list byte) : list byte :=
  let ws := words (pad msg) in
  let h := blocks (length ws / 16) ws init in
  be_bytes32 (ha h) ++ be_bytes32 (hb h) ++ be_bytes32 (hc h) ++ be_bytes32 (hd h)
    ++ be_bytes32 (he h).

Definition xor_pad (p : Z) (key : list byte) : list byte :=
  map (fun b => z2b (Z.lxor (b2z b) p)) key.

Definition hmac (key msg : list byte) : list byte :=
  let key := if (64 <? length key)%nat then sha1 key else key in
  let key := key ++ repeat x00 (64 - length key) in
  sha1 (xor_pad 0x5c key ++ sha1 (xor_pad 0x36 key ++ msg)).

(** A platform whose [crypto.createHmac] knows ['sha1'] and nothing else. *)
Definition createHmac (algorithm : string) : option (list byte -> list byte -> list byte) :=
  if String.eqb algorithm "sha1" then Some hmac else None.

End Sha1.

(* ================================================================== *)
(** ** [class TOTP] and [generateSecret] *)

Import JS Eff Coerce.
Local Open Scope eff_scope.

Record TOTP := {
  secret : jsval;
  window : Z;
  interval : Z;
  otpLength : nat;
  algorithm : string
}.

(** [{ success, message }] *)
Record verdict := { success : bool; message : string }.

(** [static _isValidSecret(secret)] *)
Definition _isValidSecret (secret : jsval) : bool :=
  Regex.test Regex.secret_re (ToString secret).

(** [constructor(secret, window, interval, otpLength, algorithm)] *)
Definition TOTP_new (secret : jsval) (window interval : Z) (otpLength : nat)
    (algorithm : string) : M TOTP :=
  if negb (_isValidSecret secret) then throw InvalidSecretError
  else ret {| secret := secret; window := window; interval := interval;
              otpLength := otpLength; algorithm := algorithm |}.

(** [new TOTP(secret)], every other parameter at its default. *)
Definition TOTP_default (secret : jsval) : M TOTP := TOTP_new secret 0 30 6 "sha1".

(** [const buffer = Buffer.alloc(8); buffer.writeBigUInt64BE(counter)] *)
Definition writeBigUInt64BE (value : Z) : M (list byte) :=
  if (0 <=? value) && (value <? 2 ^ 64) then
    let lo := Z.land value 0xffffffff in
    let hi := Z.land (Z.shiftr value 32) 0xffffffff in
    ret [ z2b (Z.shiftr hi 24); z2b (Z.shiftr hi 16); z2b (Z.shiftr hi 8); z2b hi;
          z2b (Z.shiftr lo 24); z2b (Z.shiftr lo 16); z2b (Z.shiftr lo 8); z2b lo ]
  else throw RangeError.

(** [BigInt(Math.floor(currentTime / 1000 / interval))]: the floor of the
    quotient of the two divisions taken together. [BigInt] refuses the
    infinities and [NaN] that a zero interval gives. *)
Definition counterOf (currentTime interval : Z) : M Z :=
  if interval =? 0 then throw RangeError
  else ret (currentTime / (1000 * interval)).

(** [offset] and [binaryCode] of [_generateTOTP], from the digest. *)
Definition binaryCode (digest : list byte) : Z :=
  let offset := band (num (buf_get digest (length digest - 1))) 0xf in
  bor (bor (bor (shl (band (num (buf_get digest (Z.to_nat offset))) 0x7f) 24)
                (shl (band (num (buf_get digest (Z.to_nat (offset + 1)))) 0xff) 16))
           (shl (band (num (buf_get digest (Z.to_nat (offset + 2)))) 0xff) 8))
      (band (num (buf_get digest (Z.to_nat (offset + 3)))) 0xff).

Section Engine.

(** [crypto.createHmac(algorithm, key)], [update] and [digest] in one:
    [None] for an algorithm the platform does not know, for which
    [createHmac] throws a [TypeError] (code [ERR_CRYPTO_INVALID_DIGEST]). *)
Variable createHmac : string -> option (list byte -> list byte -> list byte).

Definition hmac_digest (algorithm : string) (key data : list byte) : M (list byte) :=
  emit (CreateHmac algorithm key) ;;;
  match createHmac algorithm with
  | None => throw TypeError
  | Some h => emit (HmacUpdate data) ;;; ret (h key data)
  end.

(** [_generateTOTP(counter)] *)
Definition _generateTOTP (this : TOTP) (counter : Z) : M Z :=
  key <- (emit (Base32Decode (secret this)) ;;; lift (Base32.decode (secret this))) ;;
  buffer <- writeBigUInt64BE counter ;;
  digest <- hmac_digest (algorithm this) key buffer ;;
  ret (rem (binaryCode digest) (10 ^ Z.of_nat (otpLength this))).

(** [generateTOTP()], the clock reading [now] milliseconds. *)
Definition generateTOTP (this : TOTP) (now : Z) : M Z :=
  emit DateNow ;;;
  counter <- counterOf now (interval this) ;;
  _generateTOTP this counter.

(** [for (let i = -this.window; i <= this.window; i++)], [n] turns left. *)
Fixpoint verify_loop (n : nat) (this : TOTP) (inputOTP : jsval) (currentCounter i : Z)
    : M verdict :=
  match n with
  | O => ret {| success := false; message := "Invalid TOTP" |}
  | S n' =>
      let counter := currentCounter + i in
      otp <- _generateTOTP this counter ;;
      if parseInt10 (ToString inputOTP) =? otp
      then ret {| success := true; message := "TOTP verified" |}
      else verify_loop n' this inputOTP currentCounter (i + 1)
  end.

(** [verifyTOTP(inputOTP)], the clock reading [now] milliseconds. *)
Definition verifyTOTP (this : TOTP) (now : Z) (inputOTP : jsval) : M verdict :=
  if negb (is_string inputOTP) || negb (Regex.test Regex.otp_re (ToString inputOTP))
  then throw TypeError
  else
    emit DateNow ;;;
    currentCounter <- counterOf now (interval this) ;;
    verify_loop (Z.to_nat (window this - (- window this) + 1)) this inputOTP
      currentCounter (- window this).

End Engine.

(** [generateSecret(input)], [random] being what [crypto.randomBytes(10)]
    returns. The result is the [Buffer] that [base32.encode] returns. *)
Definition generateSecret (random : list byte) (input : jsval) : M jsval :=
  emit (RandomBytes 10) ;;;
  let secret := Base64.toString random in
  let secret := if ToBoolean input then secret ++ ToString input else secret in
  emit (Base32Encode (JString secret)) ;;;
  encodedSecret <- lift (Base32.encode (JString secret)) ;;
  ret (JBuffer encodedSecret).

(* ================================================================== *)
(** ** The reference definitions the program is compared with *)

(** RFC 4226 as the specification words it: what [hotp(counter)] is to be. *)
Module Rfc4226.

(** Step 1: the counter as eight bytes, the most significant first. *)
Definition counterBytes (counter : Z) : list byte :=
  map (fun k => z2b (counter / 256 ^ Z.of_nat k)) [7; 6; 5; 4; 3; 2; 1; 0]%nat.

(** The unsigned integer a big-endian byte sequence stands for. *)
Definition be_value (bs : list byte) : Z :=
  fold_left (fun acc b => 256 * acc + b2z b) bs 0.

(** Step 3: dynamic truncation; nothing when the digest is too short. *)
Definition code32 (digest : list byte) : option Z :=
  match nth_error digest (length digest - 1) with
  | None => None
  | Some l =>
      let offset := Z.to_nat (Z.land (b2z l) 0x0F) in
      match nth_error digest offset, nth_error digest (offset + 1),
            nth_error digest (offset + 2), nth_error digest (offset + 3) with
      | Some d0, Some d1, Some d2, Some d3 =>
          Some (Z.lor (Z.lor (Z.lor (Z.shiftl (Z.land (b2z d0) 0x7F) 24)
                                    (Z.shiftl (Z.land (b2z d1) 0xFF) 16))
                             (Z.shiftl (Z.land (b2z d2) 0xFF) 8))
                      (Z.land (b2z d3) 0xFF))
      | _, _, _, _ => None
      end
  end.

(** Steps 2 and 4, for the keyed hash [hmac]. *)
Definition hotp (hmac : list byte -> list byte -> list byte) (secretBytes : list byte)
    (counter : Z) (codeLength : nat) : option Z :=
  option_map (fun c => c mod 10 ^ Z.of_nat codeLength)
    (code32 (hmac secretBytes (counterBytes counter))).

End Rfc4226.

(** RFC 4648 base32 as the specification words it: every 5 bits of the
    input become one character, [A]-[Z] for 0-25 and [2]-[7] for 26-31, and
    [=] fills the text up to a multiple of 8 characters. *)
Module Rfc4648.

Definition bits (b : byte) : list bool :=
  map (fun k => Z.testbit (b2z b) (Z.of_nat k)) [7; 6; 5; 4; 3; 2; 1; 0]%nat.

Definition value (bs : list bool) : Z :=
  fold_left (fun acc (b : bool) => 2 * acc + (if b then 1 else 0)) bs 0.

(** The 5-bit groups, the last one filled with zero bits. *)
Fixpoint groups (l : list bool) : list Z :=
  match l with
  | [] => []
  | [a] => [value [a; false; false; false; false]]
  | [a; b] => [value [a; b; false; false; false]]
  | [a; b; c] => [value [a; b; c; false; false]]
  | [a; b; c; d] => [value [a; b; c; d; false]]
  | a :: b :: c :: d :: e :: rest => value [a; b; c; d; e] :: groups rest
  end.

Definition symbol (d : Z) : Z := if d <? 26 then 65 + d else 50 + (d - 26).

Definition padding (n : nat) : nat := ((8 - n mod 8) mod 8)%nat.

Definition encode (bytes : list byte) : jsstring :=
  let text := map symbol (groups (flat_map bits bytes)) in
  text ++ repeat 61 (padding (length text)).

End Rfc4648.

(** The shape of an accepted secret text, and of an accepted code text. *)
Definition secret_shape (text : jsstring) : Prop :=
  exists data pad,
    text = data ++ pad /\ data <> [] /\
    Forall (fun c => 65 <= c <= 90 \/ 50 <= c <= 55) data /\
    Forall (fun c => c = 61) pad.

Definition digits_shape (text : jsstring) : Prop :=
  text <> [] /\ Forall (fun c => 48 <= c <= 57) text.

(** The two results of [verifyTOTP]. *)
Definition verified : verdict := {| success := true; message := "TOTP verified" |}.
Definition rejected : verdict := {| success := false; message := "Invalid TOTP" |}.

(** The calls of one [_generateTOTP] that returns. *)
Definition hotp_calls (this : TOTP) (key : list byte) (counter : Z) : list event :=
  [Base32Decode (secret this); CreateHmac (algorithm this) key;
   HmacUpdate (Rfc4226.counterBytes counter)].

(** What the calls of [base32.decode] in a trace were given, in order. *)
Fixpoint decode_calls (t : list event) : list jsval :=
  match t with
  | [] => []
  | Base32Decode encoded :: t' => encoded :: decode_calls t'
  | _ :: t' => decode_calls t'
  end.

(** The elements of [l] up to the first one that satisfies [p], included. *)
Fixpoint upto_first {A} (p : A -> bool) (l : list A) : list A :=
  match l with
  | [] => []
  | x :: t => if p x then [x] else x :: upto_first p t
  end.

(** The counters [lo], [lo + 1], ..., [n] of them. *)
Fixpoint counters_from (lo : Z) (n : nat) : list Z :=
  match n with
  | O => []
  | S n' => lo :: counters_from (lo + 1) n'
  end.

(** [c - w], ..., [c + w]: the window of [verify] around the counter [c]. *)
Definition window_of (c w : Z) : list Z := counters_from (c - w) (Z.to_nat (2 * w + 1)).

(** The text of the optional label of [generateSecret]. *)
Definition label_text (input : jsval) : jsstring :=
  if ToBoolean input then ToString input else [].


(** ** Auxiliary definitions for the [encode] loop *)

(** The digit one turn of the loop computes, from the byte at [i], the byte
    after it and [shiftIndex]. *)
Definition step_digit (shiftIndex current next : Z) : Z :=
  if 3 <? shiftIndex then
    bor (shl (band current (shr 0xff shiftIndex)) (rem (shiftIndex + 5) 8))
        (shr next (8 - rem (shiftIndex + 5) 8))
  else band (shr current (8 - (shiftIndex + 5))) 0x1f.

Definition all_bytes : list byte := map (fun n => z2b (Z.of_nat n)) (seq 0 256).

(** The parts of a digit against the bits they are to hold. *)
Definition whole_ok (s : Z) (cur : byte) : bool :=
  band (shr (b2z cur) (8 - (s + 5))) 0x1f =?
  Rfc4648.value (firstn 5 (skipn (Z.to_nat s) (Rfc4648.bits cur))).

Definition high_ok (s : Z) (cur : byte) : bool :=
  shl (band (b2z cur) (shr 0xff s)) (rem (s + 5) 8) =?
  Rfc4648.value (skipn (Z.to_nat s) (Rfc4648.bits cur) ++ repeat false (Z.to_nat (s - 3))).

Definition low_ok (s : Z) (next : byte) : bool :=
  shr (b2z next) (8 - rem (s + 5) 8) =?
  Rfc4648.value (firstn (Z.to_nat (s - 3)) (Rfc4648.bits next)).

(** The groups still to be written when the loop is at byte [i], bit [s]. *)
Definition groups_left (plain : list byte) (i : nat) (s : Z) : list Z :=
  Rfc4648.groups (skipn (Z.to_nat s) (flat_map Rfc4648.bits (skipn i plain))).

(** The bytes of the characters of [digits]. *)
Definition text_bytes (digits : list Z) : list byte := map z2b (map Rfc4648.symbol digits).

(* ================================================================== *)
(** * Properties *)

(** ** The key of a secret text, by bits *)

(** The five bits of the value of a character, the most significant first. *)
Definition bits5 (d : Z) : list bool :=
  map (fun k => Z.testbit d (Z.of_nat k)) [4; 3; 2; 1; 0]%nat.

(** The bytes of a sequence of bits, eight at a time; a rest of fewer than
    eight bits is dropped. *)
Fixpoint bytes_of_bits (l : list bool) : list byte :=
  match l with
  | a :: b :: c :: d :: e :: f :: g :: h :: rest =>
      z2b (Rfc4648.value [a; b; c; d; e; f; g; h]) :: bytes_of_bits rest
  | _ => []
  end.

(** The value of a character of the base32 alphabet: [A]..[Z] are 0..25 and
    [2]..[7] are 26..31. *)
Definition char_value (c : Z) : Z := if c <? 65 then 26 + (c - 50) else c - 65.

(** The key that the data characters of a secret text stand for. *)
Definition secret_key (data : jsstring) : list byte :=
  bytes_of_bits (flat_map (fun c => bits5 (char_value c)) data).

(** The body of [decode_step], from the value of the character. *)
Definition decode_digit (plainDigit : Z) (st : Base32.dec_state) : Base32.dec_state :=
  let shiftIndex := rem (Base32.d_shiftIndex st + 5) 8 in
  if Base32.d_shiftIndex st <=? 3 then
    if shiftIndex =? 0 then
      {| Base32.d_shiftIndex := shiftIndex; Base32.d_plainChar := 0;
         Base32.d_plainPos := S (Base32.d_plainPos st);
         Base32.d_decoded :=
           buf_set (Base32.d_decoded st) (Base32.d_plainPos st)
             (z2b (bor (Base32.d_plainChar st) plainDigit)) |}
    else
      {| Base32.d_shiftIndex := shiftIndex;
         Base32.d_plainChar :=
           bor (Base32.d_plainChar st) (band 0xff (shl plainDigit (8 - shiftIndex)));
         Base32.d_plainPos := Base32.d_plainPos st;
         Base32.d_decoded := Base32.d_decoded st |}
  else
    {| Base32.d_shiftIndex := shiftIndex;
       Base32.d_plainChar := band 0xff (shl plainDigit (8 - shiftIndex));
       Base32.d_plainPos := S (Base32.d_plainPos st);
       Base32.d_decoded :=
         buf_set (Base32.d_decoded st) (Base32.d_plainPos st)
           (z2b (bor (Base32.d_plainChar st) (band 0xff (ushr plainDigit shiftIndex)))) |}.

(** The state of the [decode] loop that holds the bits [p], not yet a byte. *)
Definition pending (p : list bool) (pos : nat) (buf : list byte) : Base32.dec_state :=
  {| Base32.d_shiftIndex := Z.of_nat (length p);
     Base32.d_plainChar := Rfc4648.value (p ++ repeat false (8 - length p));
     Base32.d_plainPos := pos;
     Base32.d_decoded := buf |}.

(** ** Bytes *)

Lemma b2z_range (b : byte) : 0 <= b2z b < 256.
Proof.
  unfold b2z. pose proof (Byte.to_N_bounded b). lia.
Qed.

Lemma z2b_b2z (b : byte) : z2b (b2z b) = b.
Proof.
  unfold z2b. rewrite Z.mod_small by apply b2z_range.
  unfold b2z. rewrite N2Z.id, Byte.of_to_N. reflexivity.
Qed.

Lemma b2z_z2b (z : Z) : b2z (z2b z) = z mod 256.
Proof.
  unfold z2b, b2z.
  assert (Hr : 0 <= z mod 256 < 256) by (apply Z.mod_pos_bound; lia).
  destruct (Byte.of_N (Z.to_N (z mod 256))) eqn:E.
  - apply Byte.to_of_N in E. rewrite E. rewrite Z2N.id; lia.
  - apply Byte.of_N_None_iff in E. lia.
Qed.

Lemma b2z_z2b_small (z : Z) : 0 <= z < 256 -> b2z (z2b z) = z.
Proof. intros. rewrite b2z_z2b. apply Z.mod_small. assumption. Qed.

Lemma z2b_mod (z : Z) : z2b (z mod 256) = z2b z.
Proof. unfold z2b. rewrite Z.mod_mod by lia. reflexivity. Qed.

(** ** Regular expressions: the matcher decides the language *)

Module RegexFacts.
Import Regex.

Ltac inv H := inversion H; subst; clear H.

Lemma nullable_lang (r : regex) : nullable r = true <-> lang r [].
Proof.
  induction r; simpl; split; intros H; try discriminate; try (now constructor).
  - inv H.
  - inv H.
  - apply andb_true_iff in H as [H1 H2].
    change (@nil Z) with (@nil Z ++ []). constructor; [apply IHr1 | apply IHr2]; assumption.
  - inv H.
    match goal with E : _ ++ _ = [] |- _ => apply app_eq_nil in E as [-> ->] end.
    apply andb_true_iff. split; [apply IHr1 | apply IHr2]; assumption.
  - apply orb_true_iff in H as [H|H]; [apply LAltL, IHr1 | apply LAltR, IHr2]; assumption.
  - apply orb_true_iff. inv H; [left; apply IHr1 | right; apply IHr2]; assumption.
Qed.

Lemma star_cons (r : regex) (c : Z) (s : jsstring) :
  lang (Star r) (c :: s) ->
  exists s1 s2, s = s1 ++ s2 /\ lang r (c :: s1) /\ lang (Star r) s2.
Proof.
  intros H. remember (Star r) as r' eqn:Er. remember (c :: s) as cs eqn:Es.
  revert s Es. induction H; intros s0 Es; try discriminate.
  inversion Er; subst r0.
  destruct s1 as [|x s1'].
  - simpl in Es. apply IHlang2; auto.
  - simpl in Es. inversion Es; subst. exists s1', s2. auto.
Qed.

Lemma seq_cons (r1 r2 : regex) (c : Z) (s : jsstring) :
  lang (Seq r1 r2) (c :: s) ->
  (lang r1 [] /\ lang r2 (c :: s)) \/
  (exists s1 s2, s = s1 ++ s2 /\ lang r1 (c :: s1) /\ lang r2 s2).
Proof.
  intros H. inversion H as [| |? ? s1 s2 L1 L2 [E1 E2] E| | | |]. subst.
  destruct s1 as [|x s1'].
  - simpl in E. subst s2. left. auto.
  - simpl in E. inversion E; subst. right. exists s1', s2. auto.
Qed.

Lemma seq_app (r1 r2 : regex) (c : Z) (s1 s2 : jsstring) :
  lang r1 (c :: s1) -> lang r2 s2 -> lang (Seq r1 r2) (c :: s1 ++ s2).
Proof. intros. change (c :: s1 ++ s2) with ((c :: s1) ++ s2). constructor; assumption. Qed.

Lemma deriv_lang (r : regex) : forall c s, lang (deriv c r) s <-> lang r (c :: s).
Proof.
  induction r; intros c s; simpl.
  - split; intros H; inv H.
  - split; intros H; inv H.
  - destruct (p c) eqn:E; split; intros H.
    + inv H. constructor. assumption.
    + inv H. constructor.
    + inv H.
    + inv H. congruence.
  - destruct (nullable r1) eqn:N; split; intros H.
    + inv H.
      * match goal with L : lang (Seq _ _) _ |- _ => inv L end.
        apply seq_app; [apply IHr1|]; assumption.
      * change (c :: s) with ([] ++ c :: s).
        constructor; [apply nullable_lang | apply IHr2]; assumption.
    + apply seq_cons in H as [[L1 L2] | (s1 & s2 & -> & L1 & L2)].
      * apply LAltR, IHr2. assumption.
      * apply LAltL. constructor; [apply IHr1|]; assumption.
    + inv H. apply seq_app; [apply IHr1|]; assumption.
    + apply seq_cons in H as [[L1 L2] | (s1 & s2 & -> & L1 & L2)].
      * apply nullable_lang in L1. congruence.
      * constructor; [apply IHr1|]; assumption.
  - split; intros H; inv H;
      solve [apply LAltL, IHr1; assumption | apply LAltR, IHr2; assumption].
  - split; intros H.
    + inv H. change (c :: s1 ++ s2) with ((c :: s1) ++ s2).
      constructor; [apply IHr|]; assumption.
    + apply star_cons in H as (s1 & s2 & -> & L1 & L2).
      constructor; [apply IHr|]; assumption.
Qed.

Theorem test_lang (s : jsstring) : forall r, test r s = true <-> lang r s.
Proof.
  induction s as [|c s IH]; intros r; simpl.
  - apply nullable_lang.
  - rewrite IH. apply deriv_lang.
Qed.

(** The languages of [x*] and [x+] for a character class [x]. *)
Lemma star_class (p : Z -> bool) (s : jsstring) :
  lang (Star (Class p)) s <-> forallb p s = true.
Proof.
  split.
  - intros H. remember (Star (Class p)) as r eqn:E.
    induction H; try discriminate; [reflexivity|].
    inversion E; subst. inv H. simpl.
    match goal with P : p _ = true |- _ => rewrite P end.
    simpl. apply IHlang2. reflexivity.
  - induction s as [|c s IH]; simpl; intros H.
    + constructor.
    + apply andb_true_iff in H as [H1 H2].
      change (c :: s) with ([c] ++ s). constructor; [constructor; assumption | auto].
Qed.

Lemma plus_class (p : Z -> bool) (s : jsstring) :
  lang (Plus (Class p)) s <-> s <> [] /\ forallb p s = true.
Proof.
  unfold Plus. split.
  - intros H. inv H.
    match goal with L : lang (Class _) _ |- _ => inv L end.
    match goal with L : lang (Star _) _ |- _ => apply star_class in L; rename L into L2 end.
    simpl. split; [discriminate|].
    match goal with P : p _ = true |- _ => rewrite P end.
    assumption.
  - intros [Hn H]. destruct s as [|c s]; [congruence|]. simpl in H.
    apply andb_true_iff in H as [H1 H2].
    change (c :: s) with ([c] ++ s). constructor; [constructor; assumption|].
    apply star_class. assumption.
Qed.

End RegexFacts.

(** ** The two validity checks, by shape *)

Lemma forallb_Forall_iff {A} (p : A -> bool) (P : A -> Prop) (l : list A) :
  (forall x, p x = true <-> P x) -> (forallb p l = true <-> Forall P l).
Proof.
  intros Hp. rewrite forallb_forall, Forall_forall.
  split; intros H x Hx; apply Hp, H, Hx.
Qed.

Lemma base32_char_iff (c : Z) :
  Regex.base32_char c = true <-> (65 <= c <= 90 \/ 50 <= c <= 55).
Proof. unfold Regex.base32_char, Regex.in_range. lia. Qed.

Lemma equals_char_iff (c : Z) : Regex.equals_char c = true <-> c = 61.
Proof. unfold Regex.equals_char. lia. Qed.

Lemma digit_char_iff (c : Z) : Regex.digit_char c = true <-> 48 <= c <= 57.
Proof. unfold Regex.digit_char, Regex.in_range. lia. Qed.

Lemma secret_re_shape (text : jsstring) :
  Regex.test Regex.secret_re text = true <-> secret_shape text.
Proof.
  rewrite RegexFacts.test_lang. unfold Regex.secret_re, secret_shape. split.
  - intros H. inversion H as [| |? ? data pad L1 L2| | | |]; subst.
    apply RegexFacts.plus_class in L1 as [Hne Hd]. apply RegexFacts.star_class in L2.
    exists data, pad. repeat split; auto.
    + apply (forallb_Forall_iff _ _ _ base32_char_iff). assumption.
    + apply (forallb_Forall_iff _ _ _ equals_char_iff). assumption.
  - intros (data & pad & -> & Hne & Hd & Hp). constructor.
    + apply RegexFacts.plus_class. split; auto.
      apply (forallb_Forall_iff _ _ _ base32_char_iff). assumption.
    + apply RegexFacts.star_class.
      apply (forallb_Forall_iff _ _ _ equals_char_iff). assumption.
Qed.

Lemma otp_re_shape (text : jsstring) :
  Regex.test Regex.otp_re text = true <-> digits_shape text.
Proof.
  rewrite RegexFacts.test_lang. unfold Regex.otp_re, digits_shape.
  rewrite RegexFacts.plus_class.
  rewrite (forallb_Forall_iff _ _ _ digit_char_iff). reflexivity.
Qed.

(** ** ASCII text through the UTF-8 conversions *)

Lemma utf8_encode_ascii (s : jsstring) :
  Forall (fun c => 0 <= c < 128) s -> Utf8.encode s = map z2b s.
Proof.
  induction 1 as [|c s Hc Hs IH]; [reflexivity|].
  cbn [Utf8.encode map]. unfold Utf8.is_high_surrogate, Utf8.is_low_surrogate.
  replace (55296 <=? c) with false by lia. replace (56320 <=? c) with false by lia.
  cbn [andb]. unfold Utf8.encode_point. replace (c <? 128) with true by lia.
  rewrite IH. reflexivity.
Qed.

Lemma utf8_decode_points_ascii (bs : list byte) :
  Forall (fun b => b2z b < 128) bs -> Utf8.decode_points Utf8.idle bs = map b2z bs.
Proof.
  induction 1 as [|b bs Hb Hbs IH]; [reflexivity|].
  cbn [Utf8.decode_points Utf8.needed Utf8.idle map].
  replace (b2z b <=? 127) with true by lia.
  fold Utf8.idle. rewrite IH. reflexivity.
Qed.

Lemma utf8_decode_ascii (bs : list byte) :
  Forall (fun b => b2z b < 128) bs -> Utf8.decode bs = map b2z bs.
Proof.
  intros H. unfold Utf8.decode. rewrite utf8_decode_points_ascii by assumption.
  clear H. induction bs as [|b bs IH]; [reflexivity|].
  cbn [map flat_map]. rewrite IH. unfold Utf8.units_of_point.
  pose proof (b2z_range b). replace (b2z b <? 65536) with true by lia. reflexivity.
Qed.

Lemma utf8_decode_text (s : jsstring) :
  Forall (fun c => 0 <= c < 128) s -> Utf8.decode (map z2b s) = s.
Proof.
  intros H. rewrite utf8_decode_ascii.
  - rewrite map_map. rewrite <- (map_id s) at 2. apply map_ext_in.
    intros c Hc. rewrite Forall_forall in H. apply b2z_z2b_small. specialize (H c Hc). cbv beta in H. lia.
  - apply Forall_map. eapply Forall_impl; [|exact H].
    intros c Hc. cbv beta in *. rewrite b2z_z2b_small; lia.
Qed.

(** ** [base32.decode] returns on every accepted secret text *)

Lemma decode_loop_returns (bs : list byte) :
  Forall (fun b => b2z b < 128) bs ->
  forall st, exists st', Base32.decode_loop bs st = Return st'.
Proof.
  induction 1 as [|b bs Hb Hbs IH]; intros st; cbn [Base32.decode_loop].
  - eauto.
  - destruct (b2z b =? 61); [eauto|].
    assert (E : (b2z b - 48 <? Z.of_nat (length Base32.byteTable)) = true).
    { cbv beta in Hb. change (Z.of_nat (length Base32.byteTable)) with 80. lia. }
    rewrite E.
    apply IH.
Qed.

Lemma secret_shape_ascii (text : jsstring) :
  secret_shape text -> Forall (fun c => 0 <= c < 128) text.
Proof.
  intros (data & pad & -> & _ & Hd & Hp). apply Forall_app. split.
  - eapply Forall_impl; [|exact Hd]. cbv beta. lia.
  - eapply Forall_impl; [|exact Hp]. cbv beta. lia.
Qed.

Lemma decode_secret_returns (text : jsstring) :
  secret_shape text -> exists key, Base32.decode (JString text) = Return key.
Proof.
  intros H. apply secret_shape_ascii in H.
  unfold Base32.decode, Base32.decode_bytes. rewrite utf8_encode_ascii by assumption.
  assert (Hb : Forall (fun b => b2z b < 128) (map z2b text)).
  { apply Forall_map. eapply Forall_impl; [|exact H].
    intros c Hc. cbv beta in *. rewrite b2z_z2b_small; lia. }
  match goal with |- context [Base32.decode_loop ?bs ?st] =>
    destruct (decode_loop_returns bs Hb st) as [st' E] end.
  rewrite E. eauto.
Qed.

(** ** The int32 operators on small operands *)

Lemma to_int32_small (z : Z) : - 2 ^ 31 <= z < 2 ^ 31 -> to_int32 z = z.
Proof. intros H. unfold to_int32. rewrite Z.mod_small; lia. Qed.

Lemma band_small (a b : Z) :
  0 <= a < 2 ^ 31 -> 0 <= b < 2 ^ 31 -> band a b = Z.land a b.
Proof. intros. unfold band. rewrite !to_int32_small by lia. reflexivity. Qed.

Lemma bor_small (a b : Z) :
  0 <= a < 2 ^ 31 -> 0 <= b < 2 ^ 31 -> bor a b = Z.lor a b.
Proof. intros. unfold bor. rewrite !to_int32_small by lia. reflexivity. Qed.

Lemma shl_small (a n : Z) :
  0 <= a -> 0 <= n < 32 -> a * 2 ^ n < 2 ^ 31 -> shl a n = Z.shiftl a n.
Proof.
  intros Ha Hn Hb. unfold shl, to_uint32.
  assert (a < 2 ^ 31).
  { assert (1 <= 2 ^ n) by (apply Z.lt_pred_le, Z.pow_pos_nonneg; lia). nia. }
  rewrite (to_int32_small a) by lia.
  rewrite (Z.mod_small n (2 ^ 32)) by lia. rewrite (Z.mod_small n 32) by lia.
  rewrite Z.shiftl_mul_pow2 by lia. apply to_int32_small.
  assert (0 <= 2 ^ n) by (apply Z.pow_nonneg; lia). nia.
Qed.

Lemma land_mask (a k : Z) : 0 <= k -> Z.land a (2 ^ k - 1) = a mod 2 ^ k.
Proof.
  intros. replace (2 ^ k - 1) with (Z.ones k) by (rewrite Z.ones_equiv; lia).
  apply Z.land_ones. assumption.
Qed.

Lemma lor_bound (a b : Z) : 0 <= a -> 0 <= b -> 0 <= Z.lor a b <= a + b.
Proof.
  intros Ha Hb. split.
  - apply Z.lor_nonneg. auto.
  - pose proof (Z.add_lor_land a b). assert (0 <= Z.land a b) by (apply Z.land_nonneg; auto). lia.
Qed.

(** ** The counter in eight bytes *)

Lemma z2b_congr (a b : Z) : a mod 256 = b mod 256 -> z2b a = z2b b.
Proof. intros H. rewrite <- (z2b_mod a), <- (z2b_mod b), H. reflexivity. Qed.

Lemma mod_div_mod (x a b c : Z) :
  0 <= b -> 0 <= c -> b + c <= a ->
  ((x mod 2 ^ a) / 2 ^ b) mod 2 ^ c = (x / 2 ^ b) mod 2 ^ c.
Proof.
  intros Hb Hc Ha. apply Z.bits_inj'. intros n Hn.
  destruct (Z.ltb_spec n c) as [L|L].
  - rewrite !Z.mod_pow2_bits_low by lia.
    rewrite !Z.div_pow2_bits by lia.
    rewrite Z.mod_pow2_bits_low by lia. reflexivity.
  - rewrite !Z.mod_pow2_bits_high by lia. reflexivity.
Qed.

Lemma mod_mod_pow (x a c : Z) :
  0 <= c <= a -> (x mod 2 ^ a) mod 2 ^ c = x mod 2 ^ c.
Proof.
  intros H. apply Z.bits_inj'. intros n Hn.
  destruct (Z.ltb_spec n c) as [L|L].
  - rewrite !Z.mod_pow2_bits_low by lia. reflexivity.
  - rewrite !Z.mod_pow2_bits_high by lia. reflexivity.
Qed.

Lemma writeBigUInt64BE_bytes (counter : Z) :
  0 <= counter < 2 ^ 64 ->
  writeBigUInt64BE counter = ret (Rfc4226.counterBytes counter).
Proof.
  intros H. unfold writeBigUInt64BE.
  replace ((0 <=? counter) && (counter <? 2 ^ 64)) with true by lia.
  unfold Rfc4226.counterBytes. cbn [map]. unfold ret. do 2 f_equal.
  change 0xffffffff with (2 ^ 32 - 1).
  rewrite !land_mask by lia. rewrite !Z.shiftr_div_pow2 by lia.
  repeat (f_equal; [apply z2b_congr|]). 8: (f_equal; apply z2b_congr).
  all: change 256 with (2 ^ 8).
  - change (2 ^ 8 ^ Z.of_nat 7) with (2 ^ 56).
    rewrite (mod_div_mod _ 32 24 8) by lia. rewrite Z.div_div by lia. reflexivity.
  - change (2 ^ 8 ^ Z.of_nat 6) with (2 ^ 48).
    rewrite (mod_div_mod _ 32 16 8) by lia. rewrite Z.div_div by lia. reflexivity.
  - change (2 ^ 8 ^ Z.of_nat 5) with (2 ^ 40).
    rewrite (mod_div_mod _ 32 8 8) by lia. rewrite Z.div_div by lia. reflexivity.
  - change (2 ^ 8 ^ Z.of_nat 4) with (2 ^ 32).
    apply mod_mod_pow. lia.
  - change (2 ^ 8 ^ Z.of_nat 3) with (2 ^ 24).
    apply (mod_div_mod _ 32 24 8); lia.
  - change (2 ^ 8 ^ Z.of_nat 2) with (2 ^ 16).
    apply (mod_div_mod _ 32 16 8); lia.
  - change (2 ^ 8 ^ Z.of_nat 1) with (2 ^ 8).
    apply (mod_div_mod _ 32 8 8); lia.
  - change (2 ^ 8 ^ Z.of_nat 0) with (2 ^ 0).
    change (2 ^ 0) with 1. rewrite Z.div_1_r. apply mod_mod_pow. lia.
Qed.

Lemma be_value_counterBytes (counter : Z) :
  0 <= counter < 2 ^ 64 ->
  Rfc4226.be_value (Rfc4226.counterBytes counter) = counter.
Proof.
  intros H. unfold Rfc4226.be_value, Rfc4226.counterBytes. cbn [map fold_left].
  rewrite !b2z_z2b.
  change (256 ^ Z.of_nat 0) with 1. change (256 ^ Z.of_nat 1) with 256.
  change (256 ^ Z.of_nat 2) with (256 * 256).
  change (256 ^ Z.of_nat 3) with (256 * 256 * 256).
  change (256 ^ Z.of_nat 4) with (256 * 256 * 256 * 256).
  change (256 ^ Z.of_nat 5) with (256 * 256 * 256 * 256 * 256).
  change (256 ^ Z.of_nat 6) with (256 * 256 * 256 * 256 * 256 * 256).
  change (256 ^ Z.of_nat 7) with (256 * 256 * 256 * 256 * 256 * 256 * 256).
  rewrite <- !Z.div_div by lia. rewrite Z.div_1_r.
  set (c1 := counter / 256). set (c2 := c1 / 256). set (c3 := c2 / 256).
  set (c4 := c3 / 256). set (c5 := c4 / 256). set (c6 := c5 / 256). set (c7 := c6 / 256).
  pose proof (Z.div_mod counter 256). pose proof (Z.div_mod c1 256).
  pose proof (Z.div_mod c2 256). pose proof (Z.div_mod c3 256).
  pose proof (Z.div_mod c4 256). pose proof (Z.div_mod c5 256).
  pose proof (Z.div_mod c6 256).
  assert (c7 mod 256 = c7).
  { apply Z.mod_small. subst c7 c6 c5 c4 c3 c2 c1.
    rewrite !Z.div_div by lia. split.
    - apply Z.div_pos; lia.
    - apply Z.div_lt_upper_bound; lia. }
  fold c1 in H0. fold c2 in H1. fold c3 in H2. fold c4 in H3. fold c5 in H4.
  fold c6 in H5. fold c7 in H6. lia.
Qed.

(** ** Dynamic truncation *)

Lemma nth_error_in_range {A} (l : list A) (n : nat) :
  (n < length l)%nat -> exists x, nth_error l n = Some x.
Proof.
  intros H. destruct (nth_error l n) eqn:E; [eauto|].
  apply nth_error_None in E. lia.
Qed.

Lemma num_range (o : option byte) : 0 <= num o < 256.
Proof. destruct o as [b|]; cbn [num]; [apply b2z_range | lia]. Qed.

Lemma masked (a k : Z) :
  0 <= a < 256 -> 0 <= k <= 8 ->
  band a (2 ^ k - 1) = Z.land a (2 ^ k - 1) /\ 0 <= Z.land a (2 ^ k - 1) < 2 ^ k.
Proof.
  intros Ha Hk.
  assert (0 < 2 ^ k) by (apply Z.pow_pos_nonneg; lia).
  assert (2 ^ k <= 2 ^ 8) by (apply Z.pow_le_mono_r; lia).
  split.
  - apply band_small; lia.
  - rewrite land_mask by lia. apply Z.mod_pos_bound. lia.
Qed.

(** The four masked bytes fit 31 bits, so that no int32 operator wraps. *)
Lemma packed (b0 b1 b2 b3 : Z) :
  0 <= b0 < 256 -> 0 <= b1 < 256 -> 0 <= b2 < 256 -> 0 <= b3 < 256 ->
  bor (bor (bor (shl (band b0 0x7f) 24) (shl (band b1 0xff) 16)) (shl (band b2 0xff) 8))
      (band b3 0xff) =
  Z.lor (Z.lor (Z.lor (Z.shiftl (Z.land b0 0x7F) 24) (Z.shiftl (Z.land b1 0xFF) 16))
               (Z.shiftl (Z.land b2 0xFF) 8))
        (Z.land b3 0xFF) /\
  0 <= bor (bor (bor (shl (band b0 0x7f) 24) (shl (band b1 0xff) 16)) (shl (band b2 0xff) 8))
           (band b3 0xff) < 2 ^ 31.
Proof.
  intros H0 H1 H2 H3.
  destruct (masked b0 7 H0) as [B0 R0]; [lia|].
  destruct (masked b1 8 H1) as [B1 R1]; [lia|].
  destruct (masked b2 8 H2) as [B2 R2]; [lia|].
  destruct (masked b3 8 H3) as [B3 R3]; [lia|].
  change (2 ^ 7 - 1) with 127 in *. change (2 ^ 8 - 1) with 255 in *.
  change 0x7f with 127. change 0xff with 255. change 0x7F with 127. change 0xFF with 255.
  rewrite B0, B1, B2, B3.
  set (a0 := Z.land b0 127) in *. set (a1 := Z.land b1 255) in *.
  set (a2 := Z.land b2 255) in *. set (a3 := Z.land b3 255) in *.
  change (2 ^ 7) with 128 in *. change (2 ^ 8) with 256 in *.
  rewrite (shl_small a0 24), (shl_small a1 16), (shl_small a2 8)
    by (change (2 ^ 31) with 2147483648; lia).
  rewrite !Z.shiftl_mul_pow2 by lia.
  change (2 ^ 24) with 16777216. change (2 ^ 16) with 65536. change (2 ^ 8) with 256.
  change (2 ^ 31) with 2147483648.
  pose proof (lor_bound (a0 * 16777216) (a1 * 65536)) as L1.
  pose proof (lor_bound (Z.lor (a0 * 16777216) (a1 * 65536)) (a2 * 256)) as L2.
  pose proof (lor_bound (Z.lor (Z.lor (a0 * 16777216) (a1 * 65536)) (a2 * 256)) a3) as L3.
  rewrite (bor_small (a0 * 16777216)) by (change (2 ^ 31) with 2147483648; lia).
  rewrite (bor_small (Z.lor _ _) (a2 * 256)) by (change (2 ^ 31) with 2147483648; lia).
  rewrite (bor_small (Z.lor _ _) a3) by (change (2 ^ 31) with 2147483648; lia).
  split; [reflexivity | lia].
Qed.

Lemma binaryCode_range (digest : list byte) : 0 <= binaryCode digest < 2 ^ 31.
Proof. unfold binaryCode. apply packed; apply num_range. Qed.

Lemma binaryCode_code32 (digest : list byte) :
  (20 <= length digest)%nat -> Rfc4226.code32 digest = Some (binaryCode digest).
Proof.
  intros Hlen. unfold Rfc4226.code32, binaryCode, buf_get.
  destruct (nth_error_in_range digest (length digest - 1)) as [l El]; [lia|].
  rewrite El. cbn [num].
  destruct (masked (b2z l) 4 (b2z_range l)) as [Eo Ho]; [lia|].
  change (2 ^ 4 - 1) with 15 in Eo, Ho. change 0xf with 15. change 0x0F with 15.
  rewrite Eo. set (o := Z.land (b2z l) 15) in *. change (2 ^ 4) with 16 in Ho.
  rewrite !Z2Nat.inj_add by lia.
  change (Z.to_nat 1) with 1%nat. change (Z.to_nat 2) with 2%nat.
  change (Z.to_nat 3) with 3%nat.
  destruct (nth_error_in_range digest (Z.to_nat o)) as [d0 E0]; [lia|].
  destruct (nth_error_in_range digest (Z.to_nat o + 1)) as [d1 E1]; [lia|].
  destruct (nth_error_in_range digest (Z.to_nat o + 2)) as [d2 E2]; [lia|].
  destruct (nth_error_in_range digest (Z.to_nat o + 3)) as [d3 E3]; [lia|].
  rewrite E0, E1, E2, E3. cbn [num]. f_equal. symmetry.
  apply packed; apply b2z_range.
Qed.

Lemma code_range (digest : list byte) (len : nat) :
  rem (binaryCode digest) (10 ^ Z.of_nat len) = binaryCode digest mod 10 ^ Z.of_nat len /\
  0 <= rem (binaryCode digest) (10 ^ Z.of_nat len) < 10 ^ Z.of_nat len.
Proof.
  pose proof (binaryCode_range digest).
  assert (P : 0 < 10 ^ Z.of_nat len) by (apply Z.pow_pos_nonneg; lia).
  unfold rem. rewrite Z.rem_mod_nonneg by lia.
  split; [reflexivity | apply Z.mod_pos_bound; exact P].
Qed.

(** ** The monad *)

Lemma bind_return {A B} (t : list event) (a : A) (k : A -> M B) :
  bind (t, Return a) k = (t ++ trace (k a), result (k a)).
Proof. unfold bind, trace, result. destruct (k a). reflexivity. Qed.

Lemma bind_throw {A B} (t : list event) (e : exn) (k : A -> M B) :
  bind (t, Throw e) k = (t, Throw e).
Proof. reflexivity. Qed.

Lemma result_bind_return {A B} (t : list event) (a : A) (k : A -> M B) :
  result (bind (t, Return a) k) = result (k a).
Proof. rewrite bind_return. reflexivity. Qed.

Lemma result_pair {A} (t : list event) (o : outcome A) : result (t, o) = o.
Proof. reflexivity. Qed.

Lemma surjective_M {A} (m : M A) : m = (trace m, result m).
Proof. destruct m. reflexivity. Qed.

(** ** One derivation *)

Section Derivation.
Variable createHmac : string -> option (list byte -> list byte -> list byte).

Lemma generate_returns (this : TOTP) (h : list byte -> list byte -> list byte)
    (key : list byte) (counter : Z) :
  Base32.decode (secret this) = Return key ->
  createHmac (algorithm this) = Some h ->
  0 <= counter < 2 ^ 64 ->
  _generateTOTP createHmac this counter =
    (hotp_calls this key counter,
     Return (rem (binaryCode (h key (Rfc4226.counterBytes counter)))
                 (10 ^ Z.of_nat (otpLength this)))).
Proof.
  intros Hk Hh Hc. unfold _generateTOTP, hmac_digest.
  rewrite Hk, Hh, writeBigUInt64BE_bytes by assumption. reflexivity.
Qed.

Lemma generate_out_of_range (this : TOTP) (key : list byte) (counter : Z) :
  Base32.decode (secret this) = Return key ->
  counter < 0 \/ 2 ^ 64 <= counter ->
  _generateTOTP createHmac this counter = ([Base32Decode (secret this)], Throw RangeError).
Proof.
  intros Hk Hc. unfold _generateTOTP, writeBigUInt64BE.
  rewrite Hk. replace ((0 <=? counter) && (counter <? 2 ^ 64)) with false by lia.
  reflexivity.
Qed.

(** C1. For an engine built from a secret text, a hash the platform knows
    whose digests are at least 20 bytes long, and a counter that fits 64
    bits without sign, [_generateTOTP(counter)] returns the RFC 4226 value:
    the counter goes into the HMAC as eight big-endian bytes, keyed with the
    decoded secret; the digest is truncated at the offset its last byte
    gives; the result is that 31-bit number modulo [10^otpLength], and so
    lies in [0, 10^otpLength). *)
Theorem hotp_refines_rfc4226 (text : jsstring) (w i : Z) (len : nat) (alg : string)
    (this : TOTP) (h : list byte -> list byte -> list byte) (counter : Z) :
  result (TOTP_new (JString text) w i len alg) = Return this ->
  createHmac alg = Some h ->
  (forall key data, 20 <= length (h key data))%nat ->
  0 <= counter < 2 ^ 64 ->
  exists secretBytes code,
    Base32.decode (JString text) = Return secretBytes /\
    Rfc4226.be_value (Rfc4226.counterBytes counter) = counter /\
    Rfc4226.hotp h secretBytes counter len = Some code /\
    _generateTOTP createHmac this counter =
      ([Base32Decode (JString text); CreateHmac alg secretBytes;
        HmacUpdate (Rfc4226.counterBytes counter)], Return code) /\
    0 <= code < 10 ^ Z.of_nat len.
Proof.
  intros Hnew Hh Hlen Hc. unfold TOTP_new in Hnew.
  destruct (_isValidSecret (JString text)) eqn:V; [|discriminate].
  cbn in Hnew. injection Hnew as <-.
  destruct (decode_secret_returns text) as [key Hk].
  { apply secret_re_shape. exact V. }
  pose proof (binaryCode_code32 (h key (Rfc4226.counterBytes counter)) (Hlen _ _)) as E.
  destruct (code_range (h key (Rfc4226.counterBytes counter)) len) as [Em Er].
  exists key, (binaryCode (h key (Rfc4226.counterBytes counter)) mod 10 ^ Z.of_nat len).
  split; [exact Hk|]. split; [apply be_value_counterBytes; exact Hc|].
  split; [unfold Rfc4226.hotp; rewrite E; reflexivity|].
  split.
  - rewrite (generate_returns _ h key) by assumption.
    unfold hotp_calls. cbn [secret algorithm otpLength]. rewrite Em. reflexivity.
  - rewrite <- Em. exact Er.
Qed.
End Derivation.

(** ** Decimal text *)

Lemma parseInt10_app (s : jsstring) (c : Z) :
  parseInt10 (s ++ [c]) = parseInt10 s * 10 + (c - 48).
Proof. unfold parseInt10. rewrite fold_left_app. reflexivity. Qed.

Lemma digits_fuel_spec (fuel : nat) :
  forall n acc, 0 <= n < 10 ^ Z.of_nat (S fuel) ->
  exists pre, digits_fuel (S fuel) n acc = pre ++ acc /\
              parseInt10 pre = n /\ digits_shape pre.
Proof.
  induction fuel as [|fuel IH]; intros n acc Hn.
  - change (10 ^ Z.of_nat 1) with 10 in Hn.
    exists [48 + n]. cbn [digits_fuel]. replace (n <? 10) with true by lia.
    repeat split; [unfold parseInt10; cbn [fold_left]; lia | discriminate | repeat constructor; lia].
  - remember (S fuel) as f eqn:Ef. cbn [digits_fuel].
    destruct (Z.ltb_spec n 10) as [L|L].
    + exists [48 + n]. repeat split; [unfold parseInt10; cbn [fold_left]; lia | discriminate | repeat constructor; lia].
    + destruct (IH (n / 10) ((48 + n mod 10) :: acc)) as (pre & E & P & Hne & Hd).
      { split; [apply Z.div_pos; lia|].
        apply Z.div_lt_upper_bound; [lia|].
        rewrite Nat2Z.inj_succ, Z.pow_succ_r in Hn by lia. lia. }
      rewrite E.
      exists (pre ++ [48 + n mod 10]). rewrite <- app_assoc. split; [reflexivity|].
      split; [|split].
      * rewrite parseInt10_app, P. pose proof (Z.div_mod n 10). lia.
      * destruct pre; discriminate.
      * apply Forall_app. split; [exact Hd|].
        pose proof (Z.mod_pos_bound n 10). repeat constructor; lia.
Qed.

Lemma decimal_spec (n : Z) :
  0 <= n -> parseInt10 (decimal n) = n /\ digits_shape (decimal n).
Proof.
  intros Hn. unfold decimal. replace (n <? 0) with false by lia.
  destruct (digits_fuel_spec (Z.to_nat (Z.log2 n)) n []) as (pre & E & P & S).
  - split; [lia|]. rewrite Nat2Z.inj_succ, Z2Nat.id by apply Z.log2_nonneg.
    destruct (Z.eq_dec n 0) as [->|Hz].
    + cbn. lia.
    + pose proof (Z.log2_spec n ltac:(lia)) as [_ Hu].
      eapply Z.lt_le_trans; [exact Hu|].
      apply Z.pow_le_mono_l. lia.
  - rewrite E, app_nil_r. auto.
Qed.

(** ** The window of [verifyTOTP] *)

Lemma counters_from_In (n : nat) :
  forall lo c, In c (counters_from lo n) -> lo <= c < lo + Z.of_nat n.
Proof.
  induction n as [|n IH]; intros lo c H; cbn [counters_from] in H.
  - destruct H.
  - destruct H as [<-|H]; [lia|]. apply IH in H. lia.
Qed.

Lemma counters_from_length (n : nat) : forall lo, length (counters_from lo n) = n.
Proof. induction n as [|n IH]; intros lo; cbn [counters_from length]; [|rewrite IH]; reflexivity. Qed.

Lemma counters_from_nth (n : nat) :
  forall lo k, (k < n)%nat -> nth_error (counters_from lo n) k = Some (lo + Z.of_nat k).
Proof.
  induction n as [|n IH]; intros lo k Hk; [lia|].
  destruct k as [|k]; cbn [counters_from nth_error].
  - f_equal. lia.
  - rewrite IH by lia. f_equal. lia.
Qed.

Lemma counters_from_has (n : nat) :
  forall lo c, lo <= c < lo + Z.of_nat n -> In c (counters_from lo n).
Proof.
  induction n as [|n IH]; intros lo c H; [lia|].
  cbn [counters_from]. destruct (Z.eq_dec lo c) as [E|E]; [left; exact E|].
  right. apply IH. lia.
Qed.

Lemma window_of_In (c w k : Z) : In k (window_of c w) -> c - w <= k <= c + w.
Proof. unfold window_of. intros H. apply counters_from_In in H. lia. Qed.

Section Verification.
Variable createHmac : string -> option (list byte -> list byte -> list byte).

Lemma verify_loop_scan (this : TOTP) (inputOTP : jsval) (currentCounter : Z)
    (calls : Z -> list event) (code : Z -> Z) (n : nat) :
  forall i,
  (forall c, In c (counters_from (currentCounter + i) n) ->
             _generateTOTP createHmac this c = (calls c, Return (code c))) ->
  let hit c := parseInt10 (ToString inputOTP) =? code c in
  verify_loop createHmac n this inputOTP currentCounter i =
    (flat_map calls (upto_first hit (counters_from (currentCounter + i) n)),
     Return (if existsb hit (counters_from (currentCounter + i) n) then verified else rejected)).
Proof.
  induction n as [|n IH]; intros i Hc hit; [reflexivity|].
  cbn [verify_loop counters_from upto_first existsb flat_map].
  rewrite (Hc (currentCounter + i)) by (left; reflexivity).
  rewrite bind_return. fold (hit (currentCounter + i)).
  destruct (hit (currentCounter + i)) eqn:E.
  - cbn. rewrite app_nil_r. reflexivity.
  - rewrite IH.
    + replace (currentCounter + (i + 1)) with (currentCounter + i + 1) by lia.
      reflexivity.
    + intros c Hin. apply Hc. right.
      replace (currentCounter + i + 1) with (currentCounter + (i + 1)) by lia. exact Hin.
Qed.

Lemma verify_accepts_input (this : TOTP) (now : Z) (s : jsstring) :
  digits_shape s -> interval this <> 0 ->
  verifyTOTP createHmac this now (JString s) =
    (DateNow :: trace (verify_loop createHmac (Z.to_nat (2 * window this + 1)) this (JString s)
                         (now / (1000 * interval this)) (- window this)),
     result (verify_loop createHmac (Z.to_nat (2 * window this + 1)) this (JString s)
               (now / (1000 * interval this)) (- window this))).
Proof.
  intros Hs Hi. unfold verifyTOTP, counterOf. cbn [is_string typeof ToString negb orb].
  apply otp_re_shape in Hs. rewrite Hs. cbn [negb].
  replace (interval this =? 0) with false by lia.
  replace (window this - - window this + 1) with (2 * window this + 1) by lia.
  unfold emit, ret. rewrite !bind_return. reflexivity.
Qed.

Lemma constructed (v : jsval) (w i : Z) (len : nat) (alg : string) (this : TOTP) :
  result (TOTP_new v w i len alg) = Return this ->
  _isValidSecret v = true /\
  this = {| secret := v; window := w; interval := i; otpLength := len; algorithm := alg |}.
Proof.
  unfold TOTP_new. destruct (_isValidSecret v); cbn; [|discriminate].
  intros E. injection E as <-. auto.
Qed.

(** The scan of the window, when every counter of it fits 64 bits. *)
Lemma verify_window_scan (text : jsstring) (w i : Z) (len : nat) (alg : string)
    (this : TOTP) (h : list byte -> list byte -> list byte) (now : Z) :
  result (TOTP_new (JString text) w i len alg) = Return this ->
  createHmac alg = Some h ->
  0 < i -> 0 <= w ->
  w <= now / (1000 * i) -> now / (1000 * i) + w < 2 ^ 64 ->
  exists (key : list byte) (code : Z -> Z),
    Base32.decode (secret this) = Return key /\
    (forall k, 0 <= code k < 10 ^ Z.of_nat len) /\
    (forall k, now / (1000 * i) - w <= k <= now / (1000 * i) + w ->
               _generateTOTP createHmac this k = (hotp_calls this key k, Return (code k))) /\
    (forall s, digits_shape s ->
       verifyTOTP createHmac this now (JString s) =
         (DateNow :: flat_map (hotp_calls this key)
                       (upto_first (fun k => parseInt10 s =? code k)
                                   (window_of (now / (1000 * i)) w)),
          Return (if existsb (fun k => parseInt10 s =? code k) (window_of (now / (1000 * i)) w)
                  then verified else rejected))).
Proof.
  intros Hnew Hh Hi Hw Hlo Hhi.
  apply constructed in Hnew as [V ->].
  destruct (decode_secret_returns text) as [key Hk]; [apply secret_re_shape; exact V|].
  set (c := now / (1000 * i)) in *.
  set (this := {| secret := JString text; window := w; interval := i;
                  otpLength := len; algorithm := alg |}).
  exists key, (fun k => rem (binaryCode (h key (Rfc4226.counterBytes k))) (10 ^ Z.of_nat len)).
  assert (G : forall k, c - w <= k <= c + w ->
            _generateTOTP createHmac this k =
              (hotp_calls this key k,
               Return (rem (binaryCode (h key (Rfc4226.counterBytes k))) (10 ^ Z.of_nat len)))).
  { intros k Hk'. apply (generate_returns createHmac this h key k); auto. lia. }
  split; [exact Hk|]. split; [intros k; apply code_range|]. split; [exact G|].
  intros s Hs.
  rewrite verify_accepts_input by (cbn; auto; lia).
  cbn [window interval this]. fold c.
  rewrite (verify_loop_scan this (JString s) c (hotp_calls this key)
             (fun k => rem (binaryCode (h key (Rfc4226.counterBytes k))) (10 ^ Z.of_nat len))).
  - cbn [trace result fst snd ToString]. unfold window_of.
    replace (c + - w) with (c - w) by lia. reflexivity.
  - intros k Hin. apply G. apply counters_from_In in Hin.
    rewrite Z2Nat.id in Hin by lia. lia.
Qed.

End Verification.

Module EncodeFacts.
Import Base32 Rfc4648.

Lemma all_bytes_complete (b : byte) : In b all_bytes.
Proof.
  unfold all_bytes. apply in_map_iff. exists (Z.to_nat (b2z b)).
  pose proof (b2z_range b). split.
  - rewrite Z2Nat.id by lia. apply z2b_b2z.
  - apply in_seq. lia.
Qed.

Lemma byte_forall (p : byte -> bool) :
  forallb p all_bytes = true -> forall b, p b = true.
Proof. intros H b. rewrite forallb_forall in H. apply H, all_bytes_complete. Qed.

Lemma whole_all : forallb (fun s => forallb (whole_ok s) all_bytes) [0; 1; 2; 3] = true.
Proof. vm_compute. reflexivity. Qed.

Lemma high_all : forallb (fun s => forallb (high_ok s) all_bytes) [4; 5; 6; 7] = true.
Proof. vm_compute. reflexivity. Qed.

Lemma low_all : forallb (fun s => forallb (low_ok s) all_bytes) [4; 5; 6; 7] = true.
Proof. vm_compute. reflexivity. Qed.

Lemma whole_digit (s : Z) (cur : byte) :
  In s [0; 1; 2; 3] ->
  band (shr (b2z cur) (8 - (s + 5))) 0x1f = value (firstn 5 (skipn (Z.to_nat s) (bits cur))).
Proof.
  intros Hs. pose proof whole_all as H. rewrite forallb_forall in H.
  apply Z.eqb_eq. exact (byte_forall _ (H s Hs) cur).
Qed.

Lemma high_digit (s : Z) (cur : byte) :
  In s [4; 5; 6; 7] ->
  shl (band (b2z cur) (shr 0xff s)) (rem (s + 5) 8) =
  value (skipn (Z.to_nat s) (bits cur) ++ repeat false (Z.to_nat (s - 3))).
Proof.
  intros Hs. pose proof high_all as H. rewrite forallb_forall in H.
  apply Z.eqb_eq. exact (byte_forall _ (H s Hs) cur).
Qed.

Lemma low_digit (s : Z) (next : byte) :
  In s [4; 5; 6; 7] ->
  shr (b2z next) (8 - rem (s + 5) 8) = value (firstn (Z.to_nat (s - 3)) (bits next)).
Proof.
  intros Hs. pose proof low_all as H. rewrite forallb_forall in H.
  apply Z.eqb_eq. exact (byte_forall _ (H s Hs) next).
Qed.

Lemma bits_explicit (b : byte) :
  exists t7 t6 t5 t4 t3 t2 t1 t0, bits b = [t7; t6; t5; t4; t3; t2; t1; t0].
Proof. unfold bits. cbn [map]. repeat eexists. Qed.

Ltac explicit_bits b :=
  let t7 := fresh "t" in let t6 := fresh "t" in let t5 := fresh "t" in
  let t4 := fresh "t" in let t3 := fresh "t" in let t2 := fresh "t" in
  let t1 := fresh "t" in let t0 := fresh "t" in let E := fresh "E" in
  destruct (bits_explicit b) as (t7 & t6 & t5 & t4 & t3 & t2 & t1 & t0 & E);
  rewrite E in *; clear E.

Ltac all_bools :=
  repeat match goal with b : bool |- _ => clear b end;
  repeat match goal with b : bool |- _ => destruct b end.

(** What one turn computes is the next five bits of the input. *)
Lemma step_digit_bits (s : Z) (cur next : byte) :
  In s [0; 1; 2; 3; 4; 5; 6; 7] ->
  step_digit s (b2z cur) (b2z next) =
  value (firstn 5 (skipn (Z.to_nat s) (bits cur ++ bits next))).
Proof.
  intros Hs.
  assert (Hlo : In s [0; 1; 2; 3] \/ In s [4; 5; 6; 7]) by (cbn in *; intuition).
  destruct Hlo as [L|Hh].
  - transitivity (value (firstn 5 (skipn (Z.to_nat s) (bits cur)))).
    + rewrite <- (whole_digit s cur L). unfold step_digit.
      replace (3 <? s) with false by (cbn in L; lia). reflexivity.
    + explicit_bits cur. explicit_bits next.
      cbn in L. destruct L as [<-|[<-|[<-|[<-|[]]]]]; reflexivity.
  - unfold step_digit. replace (3 <? s) with true by (cbn in Hh; lia).
    rewrite (high_digit s cur Hh), (low_digit s next Hh).
    explicit_bits cur. explicit_bits next.
    cbn in Hh. destruct Hh as [<-|[<-|[<-|[<-|[]]]]].
    + change (Z.to_nat 4) with 4%nat. change (Z.to_nat (4 - 3)) with 1%nat.
      cbn [skipn firstn app repeat]. all_bools; vm_compute; reflexivity.
    + change (Z.to_nat 5) with 5%nat. change (Z.to_nat (5 - 3)) with 2%nat.
      cbn [skipn firstn app repeat]. all_bools; vm_compute; reflexivity.
    + change (Z.to_nat 6) with 6%nat. change (Z.to_nat (6 - 3)) with 3%nat.
      cbn [skipn firstn app repeat]. all_bools; vm_compute; reflexivity.
    + change (Z.to_nat 7) with 7%nat. change (Z.to_nat (7 - 3)) with 4%nat.
      cbn [skipn firstn app repeat]. all_bools; vm_compute; reflexivity.
Qed.
End EncodeFacts.

Module EncodeLoop.
Import Base32 Rfc4648 EncodeFacts.

Lemma encode_step_eq (plain : list byte) (i j : nat) (s dg : Z) (enc : list byte) :
  encode_step plain
    {| e_i := i; e_j := j; e_shiftIndex := s; e_digit := dg; e_encoded := enc |} =
  let next := if (i + 1 <? length plain)%nat then num (buf_get plain (i + 1)) else 0 in
  let d := step_digit s (num (buf_get plain i)) next in
  {| e_i := if (3 <? s) || (rem (s + 5) 8 =? 0) then S i else i;
     e_j := S j; e_shiftIndex := rem (s + 5) 8; e_digit := d;
     e_encoded := buf_set enc j (z2b (charCodeAt charTable d)) |}.
Proof.
  unfold encode_step, step_digit.
  cbn [e_i e_j e_shiftIndex e_digit e_encoded].
  destruct (3 <? s); reflexivity.
Qed.

Lemma skipn_nth_error {A} (l : list A) :
  forall i x, nth_error l i = Some x -> skipn i l = x :: skipn (S i) l.
Proof.
  induction l as [|a l IH]; intros [|i] x H; try discriminate.
  - injection H as ->. reflexivity.
  - cbn [nth_error] in H. apply IH in H. exact H.
Qed.

Lemma next_byte (plain : list byte) (i : nat) :
  (if (i + 1 <? length plain)%nat then num (buf_get plain (i + 1)) else 0) =
  b2z (hd x00 (skipn (S i) plain)).
Proof.
  unfold buf_get. replace (i + 1)%nat with (S i) by lia.
  destruct (nth_error plain (S i)) as [x|] eqn:E.
  - assert (S i < length plain)%nat by (apply nth_error_Some; congruence).
    replace (S i <? length plain)%nat with true by (symmetry; apply Nat.ltb_lt; lia).
    rewrite (skipn_nth_error _ _ _ E). reflexivity.
  - apply nth_error_None in E.
    replace (S i <? length plain)%nat with false by (symmetry; apply Nat.ltb_ge; lia).
    rewrite skipn_all2 by lia. reflexivity.
Qed.

Lemma bits_x00 : bits x00 = [false; false; false; false; false; false; false; false].
Proof. reflexivity. Qed.

Ltac shift_cases Hs :=
  cbn [In] in Hs;
  destruct Hs as [<-|[<-|[<-|[<-|[<-|[<-|[<-|[<-|[]]]]]]]]].

Ltac settle_shift :=
  repeat match goal with
  | |- context [rem ?a 8] =>
      let v := eval vm_compute in (rem a 8) in change (rem a 8) with v
  | |- context [Z.to_nat ?a] =>
      let v := eval vm_compute in (Z.to_nat a) in change (Z.to_nat a) with v
  | |- context [3 <? ?a] =>
      let v := eval vm_compute in (3 <? a) in change (3 <? a) with v
  | |- context [?a =? 0] =>
      let v := eval vm_compute in (a =? 0) in change (a =? 0) with v
  end;
  cbn [orb].

(** One turn takes the first group off the stream of bits that is left. *)
Lemma step_groups (s : Z) (cur : byte) (rest : list byte) :
  In s [0; 1; 2; 3; 4; 5; 6; 7] ->
  groups (skipn (Z.to_nat s) (flat_map bits (cur :: rest))) =
  value (firstn 5 (skipn (Z.to_nat s) (bits cur ++ bits (hd x00 rest))))
    :: groups (skipn (Z.to_nat (rem (s + 5) 8))
                 (flat_map bits (if (3 <? s) || (rem (s + 5) 8 =? 0)
                                 then rest else cur :: rest))).
Proof.
  intros Hs. destruct rest as [|next rest]; cbn [hd flat_map].
  - rewrite bits_x00.
    shift_cases Hs; settle_shift; cbn [flat_map]; explicit_bits cur; reflexivity.
  - shift_cases Hs; settle_shift; cbn [flat_map];
      explicit_bits cur; explicit_bits next; generalize (flat_map bits rest); intros R;
      reflexivity.
Qed.

Lemma symbol_of_group (s : Z) (cur next : byte) :
  In s [0; 1; 2; 3; 4; 5; 6; 7] ->
  charCodeAt charTable (value (firstn 5 (skipn (Z.to_nat s) (bits cur ++ bits next)))) =
  symbol (value (firstn 5 (skipn (Z.to_nat s) (bits cur ++ bits next)))).
Proof.
  intros Hs. explicit_bits cur. explicit_bits next.
  shift_cases Hs; settle_shift; cbn [skipn firstn app]; all_bools; vm_compute; reflexivity.
Qed.

Lemma shift_stays (s : Z) :
  In s [0; 1; 2; 3; 4; 5; 6; 7] -> In (rem (s + 5) 8) [0; 1; 2; 3; 4; 5; 6; 7].
Proof. intros Hs. shift_cases Hs; vm_compute; tauto. Qed.

Lemma buf_set_middle (pre post : list byte) (x v : byte) :
  buf_set (pre ++ x :: post) (length pre) v = pre ++ v :: post.
Proof. induction pre as [|a pre IH]; cbn; [reflexivity | rewrite IH; reflexivity]. Qed.

Lemma encode_while_spec (plain : list byte) (N : nat) (fuel : nat) :
  forall (i j : nat) (s dg : Z) (done : list Z),
  In s [0; 1; 2; 3; 4; 5; 6; 7] ->
  (length (groups_left plain i s) <= fuel)%nat ->
  (j + length (groups_left plain i s) <= N)%nat ->
  length done = j ->
  exists st,
    encode_while fuel plain
      {| e_i := i; e_j := j; e_shiftIndex := s; e_digit := dg;
         e_encoded := text_bytes done ++ repeat x00 (N - j) |} = Return st /\
    e_j st = (j + length (groups_left plain i s))%nat /\
    e_encoded st = text_bytes (done ++ groups_left plain i s)
                     ++ repeat x00 (N - (j + length (groups_left plain i s))).
Proof.
  induction fuel as [|fuel IH]; intros i j s dg done Hs Hfuel HN Hj.
  - cbn [encode_while e_i].
    destruct (Nat.ltb_spec i (length plain)) as [Hi|Hi].
    + exfalso. destruct (nth_error_in_range plain i Hi) as [cur Ec].
      unfold groups_left in Hfuel, HN |- *. rewrite (skipn_nth_error _ _ _ Ec), step_groups in Hfuel by exact Hs.
      cbn [length] in Hfuel. exact (Nat.nle_succ_0 _ Hfuel).
    + eexists. split; [reflexivity|]. cbn [e_j e_encoded].
      unfold groups_left in Hfuel, HN |- *. rewrite (skipn_all2 (n:=i) plain) by lia. cbn [flat_map]. rewrite skipn_nil.
      cbn [groups length]. rewrite app_nil_r, Nat.add_0_r. auto.
  - cbn [encode_while e_i].
    destruct (Nat.ltb_spec i (length plain)) as [Hi|Hi].
    + destruct (nth_error_in_range plain i Hi) as [cur Ec].
      rewrite encode_step_eq. cbv zeta. rewrite next_byte.
      unfold buf_get at 1 2. rewrite Ec. cbn [num].
      rewrite !step_digit_bits by exact Hs.
      rewrite symbol_of_group by exact Hs.
      unfold groups_left in Hfuel, HN |- *. rewrite (skipn_nth_error _ _ _ Ec), step_groups in * by exact Hs.
      set (d := value (firstn 5 (skipn (Z.to_nat s) (bits cur ++ bits (hd x00 (skipn (S i) plain)))))) in *.
      cbn [length] in Hfuel, HN.
      assert (El : skipn (if (3 <? s) || (rem (s + 5) 8 =? 0) then S i else i) plain =
                   (if (3 <? s) || (rem (s + 5) 8 =? 0) then skipn (S i) plain
                    else cur :: skipn (S i) plain)).
      { destruct ((3 <? s) || (rem (s + 5) 8 =? 0)); [reflexivity|].
        apply skipn_nth_error. exact Ec. }
      replace (N - j)%nat with (S (N - S j)) by lia. cbn [repeat].
      assert (Eb : buf_set (text_bytes done ++ x00 :: repeat x00 (N - S j)) j (z2b (symbol d)) =
                   text_bytes (done ++ [d]) ++ repeat x00 (N - S j)).
      { pose proof (buf_set_middle (text_bytes done) (repeat x00 (N - S j)) x00 (z2b (symbol d))) as B.
        unfold text_bytes at 2 in B. rewrite !length_map, Hj in B. rewrite B.
        unfold text_bytes. rewrite !map_app, <- app_assoc. reflexivity. }
      rewrite Eb. clear Eb. clearbody d.
      rewrite <- El in *.
      fold (groups_left plain (if (3 <? s) || (rem (s + 5) 8 =? 0) then S i else i)
              (rem (s + 5) 8)) in *.
      set (i' := if (3 <? s) || (rem (s + 5) 8 =? 0) then S i else i) in *.
      set (s' := rem (s + 5) 8) in *.
      destruct (IH i' (S j) s' d (done ++ [d])) as (st & E & Ej & Ee).
      * apply shift_stays. exact Hs.
      * clear IH. lia.
      * clear IH. lia.
      * rewrite length_app. cbn [length]. clear IH. lia.
      * exists st. split; [exact E|].
        cbn [length]. rewrite Ej, Ee. rewrite <- app_assoc. cbn [app].
        clear IH. split; [lia|]. do 2 f_equal. lia.
    + eexists. split; [reflexivity|]. cbn [e_j e_encoded].
      unfold groups_left in Hfuel, HN |- *. rewrite (skipn_all2 (n:=i) plain) by lia. cbn [flat_map]. rewrite skipn_nil.
      cbn [groups length]. rewrite app_nil_r, Nat.add_0_r. auto.
Qed.

(** *** The padding loop and the sizes *)

Lemma encode_fill_spec (n : nat) :
  forall pre, encode_fill n (length pre) (pre ++ repeat x00 n) = pre ++ repeat x3d n.
Proof.
  induction n as [|n IH]; intros pre; cbn [encode_fill repeat]; [reflexivity|].
  rewrite buf_set_middle.
  replace (pre ++ x3d :: repeat x00 n) with ((pre ++ [x3d]) ++ repeat x00 n)
    by (rewrite <- app_assoc; reflexivity).
  replace (S (length pre)) with (length (pre ++ [x3d]))
    by (rewrite length_app; cbn [length]; lia).
  rewrite IH, <- app_assoc. reflexivity.
Qed.

Lemma groups_length_step (a b c d e : bool) (l : list bool) :
  length (groups (a :: b :: c :: d :: e :: l)) = S (length (groups l)).
Proof. reflexivity. Qed.

Lemma groups_length (n : nat) :
  forall l, (length l <= n)%nat -> length (groups l) = ((length l + 4) / 5)%nat.
Proof.
  induction n as [n IH] using lt_wf_ind. intros l Hl.
  destruct l as [|a [|b [|c [|d [|e l]]]]]; try reflexivity.
  rewrite groups_length_step, (IH (length l)); [| cbn [length] in Hl; lia | lia].
  cbn [length].
  replace (S (S (S (S (S (length l))))) + 4)%nat with ((length l + 4) + 1 * 5)%nat by lia.
  rewrite Nat.div_add by lia. lia.
Qed.

Lemma bits_length (plain : list byte) : length (flat_map bits plain) = (8 * length plain)%nat.
Proof.
  induction plain as [|b plain IH]; [reflexivity|].
  cbn [flat_map]. rewrite length_app, IH. cbn [length bits map]. lia.
Qed.

Lemma sizes (len : nat) :
  let total := ((8 * len + 4) / 5)%nat in
  let room := ((if (len mod 5 =? 0)%nat then len / 5 else S (len / 5)) * 8)%nat in
  (total <= room)%nat /\ (room - total)%nat = padding total.
Proof.
  intros total room. subst total room. unfold padding.
  pose proof (Nat.div_mod_eq len 5) as E.
  pose proof (Nat.mod_upper_bound len 5 ltac:(lia)) as B.
  set (q := (len / 5)%nat) in *. set (r := (len mod 5)%nat) in *.
  assert (T : forall k m, (k < 5)%nat -> (8 * r + 4 = 5 * m + k)%nat ->
              ((8 * len + 4) / 5 = 8 * q + m)%nat).
  { intros k m Hk Hm. symmetry. apply Nat.div_unique with (r := k); lia. }
  assert (M : forall m, (m < 8)%nat -> ((8 * q + m) mod 8 = m)%nat).
  { intros m Hm. symmetry. apply Nat.mod_unique with (q := q); lia. }
  assert (C : (r = 0 \/ r = 1 \/ r = 2 \/ r = 3 \/ r = 4)%nat) by lia.
  clearbody q r.
  destruct C as [C|[C|[C|[C|C]]]]; subst r; cbn [Nat.eqb].
  - rewrite (T 4 0)%nat by lia. rewrite M by lia.
    change ((8 - 0) mod 8)%nat with 0%nat. lia.
  - rewrite (T 2 2)%nat by lia. rewrite M by lia.
    change ((8 - 2) mod 8)%nat with 6%nat. lia.
  - rewrite (T 0 4)%nat by lia. rewrite M by lia.
    change ((8 - 4) mod 8)%nat with 4%nat. lia.
  - rewrite (T 3 5)%nat by lia. rewrite M by lia.
    change ((8 - 5) mod 8)%nat with 3%nat. lia.
  - rewrite (T 1 7)%nat by lia. rewrite M by lia.
    change ((8 - 7) mod 8)%nat with 1%nat. lia.
Qed.

Lemma text_bytes_encode (digits : list Z) (n : nat) :
  text_bytes digits ++ repeat x3d n = map z2b (map symbol digits ++ repeat 61 n).
Proof.
  unfold text_bytes. rewrite map_app. f_equal.
  induction n as [|n IH]; [reflexivity|]. cbn [repeat map]. rewrite <- IH. reflexivity.
Qed.

(** [base32.encode] writes the RFC 4648 text of its input. *)
Theorem encode_bytes_rfc4648 (plain : list byte) :
  encode_bytes plain = Return (map z2b (Rfc4648.encode plain)).
Proof.
  unfold encode_bytes, Rfc4648.encode.
  set (all := groups (flat_map bits plain)).
  set (N := (quintetCount plain * 8)%nat).
  assert (Hall : groups_left plain 0 0 = all) by reflexivity.
  assert (Htotal : length all = ((8 * length plain + 4) / 5)%nat).
  { subst all. rewrite (groups_length _ _ (le_n _)), bits_length. reflexivity. }
  destruct (sizes (length plain)) as [Hroom Hpad].
  fold (quintetCount plain) in Hroom, Hpad. fold N in Hroom, Hpad.
  rewrite <- Htotal in Hroom, Hpad.
  rewrite repeat_length.
  destruct (encode_while_spec plain N N 0 0 0 0 []) as (st & E & Ej & Ee).
  - cbn. tauto.
  - rewrite Hall. exact Hroom.
  - rewrite Hall. exact Hroom.
  - reflexivity.
  - cbn [text_bytes map app] in E. rewrite Nat.sub_0_r in E. rewrite E.
    rewrite Hall in Ej, Ee. cbn [Nat.add app] in Ej, Ee.
    rewrite Ej, Ee. f_equal.
    assert (Hl : length (text_bytes all) = length all)
      by (unfold text_bytes; rewrite !length_map; reflexivity).
    rewrite length_app, repeat_length, Hl.
    replace (length all + (N - length all) - length all)%nat with (N - length all)%nat by lia.
    pose proof (encode_fill_spec (N - length all) (text_bytes all)) as F.
    rewrite Hl in F. rewrite F, Hpad, length_map. apply text_bytes_encode.
Qed.
End EncodeLoop.

(* ================================================================== *)
(** * The claims *)

(** ** Which exceptions the methods raise *)

Lemma bind_not_throwing {A B} (m : M A) (k : A -> M B) (e : exn) :
  result m <> Throw e -> (forall a, result (k a) <> Throw e) -> result (bind m k) <> Throw e.
Proof.
  intros Hm Hk. destruct m as [t [a| e' |]]; cbn [result snd] in Hm.
  - rewrite bind_return. apply Hk.
  - cbn. intros E. apply Hm. injection E as ->. reflexivity.
  - cbn. discriminate.
Qed.

Lemma decode_loop_outcome (bs : list byte) :
  forall st, (exists st', Base32.decode_loop bs st = Return st') \/
             Base32.decode_loop bs st = Throw Error.
Proof.
  induction bs as [|b bs IH]; intros st; cbn [Base32.decode_loop].
  - left. eauto.
  - destruct (b2z b =? 61); [left; eauto|].
    destruct (b2z b - 48 <? Z.of_nat (length Base32.byteTable)); [apply IH | right; reflexivity].
Qed.

Lemma decode_not_invalid_secret (v : jsval) : Base32.decode v <> Throw InvalidSecretError.
Proof.
  assert (H : forall bs, Base32.decode_bytes bs <> Throw InvalidSecretError).
  { intros bs. unfold Base32.decode_bytes.
    match goal with |- context [Base32.decode_loop ?l ?st] =>
      destruct (decode_loop_outcome l st) as [[st' E]|E]; rewrite E end; discriminate. }
  destruct v; cbn [Base32.decode]; try discriminate; apply H.
Qed.

Section Exceptions.
Variable createHmac : string -> option (list byte -> list byte -> list byte).

Lemma derivation_not_invalid_secret (this : TOTP) (counter : Z) :
  result (_generateTOTP createHmac this counter) <> Throw InvalidSecretError.
Proof.
  unfold _generateTOTP. apply bind_not_throwing.
  - unfold emit, lift. rewrite bind_return. cbn [result snd].
    apply decode_not_invalid_secret.
  - intros key. apply bind_not_throwing.
    + unfold writeBigUInt64BE. destruct ((0 <=? counter) && (counter <? 2 ^ 64)); discriminate.
    + intros buffer. apply bind_not_throwing; [|discriminate].
      unfold hmac_digest, emit. rewrite bind_return.
      destruct (createHmac (algorithm this)); discriminate.
Qed.

Lemma counterOf_not_invalid_secret (now i : Z) :
  result (counterOf now i) <> Throw InvalidSecretError.
Proof. unfold counterOf. destruct (i =? 0); discriminate. Qed.

Lemma generate_not_invalid_secret (this : TOTP) (now : Z) :
  result (generateTOTP createHmac this now) <> Throw InvalidSecretError.
Proof.
  unfold generateTOTP. apply bind_not_throwing; [discriminate|]. intros _.
  apply bind_not_throwing; [apply counterOf_not_invalid_secret|]. intros c.
  apply derivation_not_invalid_secret.
Qed.

Lemma verify_loop_not_invalid_secret (this : TOTP) (input : jsval) (c : Z) (n : nat) :
  forall i, result (verify_loop createHmac n this input c i) <> Throw InvalidSecretError.
Proof.
  induction n as [|n IH]; intros i; cbn [verify_loop]; [discriminate|].
  apply bind_not_throwing; [apply derivation_not_invalid_secret|].
  intros otp. destruct (parseInt10 (ToString input) =? otp); [discriminate | apply IH].
Qed.

Lemma verify_not_invalid_secret (this : TOTP) (now : Z) (input : jsval) :
  result (verifyTOTP createHmac this now input) <> Throw InvalidSecretError.
Proof.
  unfold verifyTOTP.
  destruct (negb (is_string input) || negb (Regex.test Regex.otp_re (ToString input)));
    [discriminate|].
  apply bind_not_throwing; [discriminate|]. intros _.
  apply bind_not_throwing; [apply counterOf_not_invalid_secret|]. intros c.
  apply verify_loop_not_invalid_secret.
Qed.

End Exceptions.

(** ** Construction *)

Lemma constructor_cases (v : jsval) (w i : Z) (len : nat) (alg : string) :
  TOTP_new v w i len alg =
    if _isValidSecret v
    then ([], Return {| secret := v; window := w; interval := i;
                        otpLength := len; algorithm := alg |})
    else ([], Throw InvalidSecretError).
Proof. unfold TOTP_new. destruct (_isValidSecret v); reflexivity. Qed.

(** C6. Construction from a text succeeds exactly when the text is one or
    more characters of [A-Z2-7] followed by any number of [=], and raises
    [InvalidSecretError] otherwise; [generateTOTP] and [verifyTOTP] never
    raise that error, whatever the engine, the clock and the input;
    ["not-base32!!"] is refused and ["JBSWY3DPEHPK3PXP"] is accepted. *)
Theorem constructor_accepts_exactly_secret_shape :
  (forall (text : jsstring) (w i : Z) (len : nat) (alg : string),
     (secret_shape text ->
      TOTP_new (JString text) w i len alg =
        ([], Return {| secret := JString text; window := w; interval := i;
                       otpLength := len; algorithm := alg |})) /\
     (~ secret_shape text ->
      TOTP_new (JString text) w i len alg = ([], Throw InvalidSecretError))) /\
  (forall createHmac this now,
     result (generateTOTP createHmac this now) <> Throw InvalidSecretError) /\
  (forall createHmac this now input,
     result (verifyTOTP createHmac this now input) <> Throw InvalidSecretError) /\
  result (TOTP_default (JString (lit "not-base32!!"))) = Throw InvalidSecretError /\
  (exists this, result (TOTP_default (JString (lit "JBSWY3DPEHPK3PXP"))) = Return this).
Proof.
  split; [|split; [|split; [|split]]].
  - intros text w i len alg. rewrite constructor_cases.
    unfold _isValidSecret. cbn [ToString].
    destruct (Regex.test Regex.secret_re text) eqn:E; split; intros H; try reflexivity.
    + exfalso. apply H, secret_re_shape, E.
    + apply secret_re_shape in H. congruence.
  - intros. apply generate_not_invalid_secret.
  - intros. apply verify_not_invalid_secret.
  - reflexivity.
  - eexists. reflexivity.
Qed.

(** The first part at the texts ["AB2="], which is accepted, and ["ab"], which
    is refused. *)
Lemma constructor_accepts_exactly_secret_shape_witness :
  TOTP_new (JString (lit "AB2=")) 1 30 6 "sha1" =
    ([], Return {| secret := JString (lit "AB2="); window := 1; interval := 30;
                   otpLength := 6; algorithm := "sha1" |}) /\
  TOTP_new (JString (lit "ab")) 1 30 6 "sha1" = ([], Throw InvalidSecretError).
Proof.
  split.
  - apply (proj1 constructor_accepts_exactly_secret_shape (lit "AB2=") 1 30 6%nat "sha1"%string).
    apply secret_re_shape. reflexivity.
  - apply (proj1 constructor_accepts_exactly_secret_shape (lit "ab") 1 30 6%nat "sha1"%string).
    intros H. apply secret_re_shape in H. discriminate H.
Defined.

(** ** Malformed input *)

(** C7. When the input is anything but a string of one or more decimal
    digits, [verifyTOTP] throws [TypeError] and has called nothing before:
    the clock is not read, the secret is not decoded, no HMAC is computed. *)
Theorem verify_throws_on_malformed_input
    (createHmac : string -> option (list byte -> list byte -> list byte))
    (this : TOTP) (now : Z) (input : jsval) :
  ~ (exists s, input = JString s /\ digits_shape s) ->
  verifyTOTP createHmac this now input = ([], Throw TypeError).
Proof.
  intros H. unfold verifyTOTP.
  destruct input as [| | n | s | b]; try reflexivity.
  cbn [is_string typeof negb orb ToString].
  destruct (Regex.test Regex.otp_re s) eqn:E; [|reflexivity].
  exfalso. apply H. exists s. split; [reflexivity | apply otp_re_shape, E].
Qed.

(** The inputs ["12a3"], [""], [null] and [undefined]. *)
Lemma verify_throws_on_malformed_input_witness :
  let this := {| secret := JString (lit "JBSWY3DPEHPK3PXP"); window := 1; interval := 30;
                 otpLength := 6; algorithm := "sha1" |} in
  verifyTOTP Sha1.createHmac this 1730505750000 (JString (lit "12a3")) = ([], Throw TypeError) /\
  verifyTOTP Sha1.createHmac this 1730505750000 (JString (lit "")) = ([], Throw TypeError) /\
  verifyTOTP Sha1.createHmac this 1730505750000 JNull = ([], Throw TypeError) /\
  verifyTOTP Sha1.createHmac this 1730505750000 JUndefined = ([], Throw TypeError).
Proof.
  intros this. split; [|split; [|split]]; apply verify_throws_on_malformed_input.
  - intros (s & E & H). injection E as <-. apply otp_re_shape in H. discriminate H.
  - intros (s & E & H). injection E as <-. apply otp_re_shape in H. discriminate H.
  - intros (s & E & _). discriminate E.
  - intros (s & E & _). discriminate E.
Defined.

(** ** What the engine keeps *)

(** C8, the claim as stated fails: the engine built from
    ["JBSWY3DPEHPK3PXP"] is built without a call to [base32.decode], holds
    the text itself, and both [generateTOTP] and [verifyTOTP] decode it. *)
Lemma secret_text_kept_and_decoded_per_call :
  let text := lit "JBSWY3DPEHPK3PXP" in
  exists this,
    TOTP_default (JString text) = ([], Return this) /\
    secret this = JString text /\
    In (Base32Decode (JString text)) (trace (generateTOTP Sha1.createHmac this 1730505750000)) /\
    In (Base32Decode (JString text))
       (trace (verifyTOTP Sha1.createHmac this 1730505750000 (JString (lit "854198")))).
Proof.
  eexists. split; [reflexivity|]. split; [reflexivity|].
  split; vm_compute; tauto.
Qed.

(** *** The calls of [base32.decode] *)

Section Decodings.
Variable createHmac : string -> option (list byte -> list byte -> list byte).

Lemma decode_calls_app (t1 t2 : list event) :
  decode_calls (t1 ++ t2) = decode_calls t1 ++ decode_calls t2.
Proof.
  induction t1 as [|ev t1 IH]; [reflexivity|].
  destruct ev; cbn [app decode_calls]; rewrite IH; reflexivity.
Qed.

(** A derivation calls [base32.decode] once, before anything else, on the
    secret the engine holds. *)
Lemma derivation_decodes_once (this : TOTP) (counter : Z) :
  exists rest,
    trace (_generateTOTP createHmac this counter) = Base32Decode (secret this) :: rest /\
    decode_calls rest = [].
Proof.
  unfold _generateTOTP, hmac_digest, writeBigUInt64BE, emit, lift, ret, throw.
  rewrite bind_return. cbn [trace fst result snd app].
  destruct (Base32.decode (secret this)) as [key| e |];
    [|eexists; split; reflexivity | eexists; split; reflexivity].
  destruct ((0 <=? counter) && (counter <? 2 ^ 64));
    [|eexists; split; reflexivity].
  rewrite !bind_return. cbn [trace fst result snd app].
  destruct (createHmac (algorithm this)) as [h|].
  - rewrite !bind_return. cbn [trace fst result snd app]. eexists. split; reflexivity.
  - eexists. split; reflexivity.
Qed.

Lemma decode_calls_derivations (this : TOTP) (tried : list Z) :
  decode_calls (flat_map (fun k => trace (_generateTOTP createHmac this k)) tried) =
  map (fun _ => secret this) tried.
Proof.
  induction tried as [|k tried IH]; [reflexivity|].
  cbn [flat_map map]. rewrite decode_calls_app, IH.
  destruct (derivation_decodes_once this k) as (rest & -> & Hrest).
  cbn [decode_calls]. rewrite Hrest. reflexivity.
Qed.

(** The calls of the loop of [verifyTOTP] are those of the derivations of
    the counters it tries, which are the first ones of its range. *)
Lemma verify_loop_tried (this : TOTP) (inputOTP : jsval) (currentCounter : Z) (n : nat) :
  forall i, exists tried later,
    counters_from (currentCounter + i) n = tried ++ later /\
    trace (verify_loop createHmac n this inputOTP currentCounter i) =
      flat_map (fun k => trace (_generateTOTP createHmac this k)) tried.
Proof.
  induction n as [|n IH]; intros i.
  - exists [], []. split; reflexivity.
  - cbn [verify_loop counters_from].
    destruct (_generateTOTP createHmac this (currentCounter + i)) as [t [otp| e |]] eqn:E.
    + rewrite bind_return. cbv beta.
      destruct (parseInt10 (ToString inputOTP) =? otp).
      * exists [currentCounter + i], (counters_from (currentCounter + i + 1) n).
        split; [reflexivity|]. cbn [flat_map]. rewrite E. reflexivity.
      * destruct (IH (i + 1)) as (tried & later & Hc & Ht).
        exists ((currentCounter + i) :: tried), later. split.
        -- replace (currentCounter + i + 1) with (currentCounter + (i + 1)) by lia.
           rewrite Hc. reflexivity.
        -- cbn [flat_map]. rewrite E. unfold trace in *. cbn [fst]. rewrite Ht. reflexivity.
    + exists [currentCounter + i], (counters_from (currentCounter + i + 1) n).
      split; [reflexivity|]. cbn [flat_map]. rewrite E. cbn. rewrite app_nil_r. reflexivity.
    + exists [currentCounter + i], (counters_from (currentCounter + i + 1) n).
      split; [reflexivity|]. cbn [flat_map]. rewrite E. cbn. rewrite app_nil_r. reflexivity.
Qed.

End Decodings.

(** C8, as amended. Construction checks the text against the pattern and
    calls nothing else; the engine keeps the text as it was given; a
    derivation calls [base32.decode] exactly once, first, on that text.
    So [generateTOTP] decodes the text once, right after reading the clock,
    and [verifyTOTP] once for every counter it tries: its calls are the
    clock reading and then those of the derivations of the counters tried,
    the first ones of the window. With interval 0 both stop at the clock
    and decode nothing. *)
Theorem constructor_keeps_text_derivation_decodes
    (createHmac : string -> option (list byte -> list byte -> list byte))
    (text : jsstring) (w i : Z) (len : nat) (alg : string) (this : TOTP) :
  result (TOTP_new (JString text) w i len alg) = Return this ->
  trace (TOTP_new (JString text) w i len alg) = [] /\
  secret this = JString text /\
  (forall counter, exists rest,
     trace (_generateTOTP createHmac this counter) = Base32Decode (JString text) :: rest /\
     decode_calls rest = []) /\
  (forall now, i <> 0 -> exists rest,
     trace (generateTOTP createHmac this now) =
       DateNow :: Base32Decode (JString text) :: rest /\
     decode_calls rest = []) /\
  (forall now, i = 0 -> trace (generateTOTP createHmac this now) = [DateNow]) /\
  (forall now s, digits_shape s ->
     exists tried later,
       window_of (now / (1000 * i)) w = tried ++ later /\
       trace (verifyTOTP createHmac this now (JString s)) =
         DateNow :: flat_map (fun k => trace (_generateTOTP createHmac this k)) tried /\
       decode_calls (trace (verifyTOTP createHmac this now (JString s))) =
         map (fun _ => JString text) tried /\
       (i = 0 -> tried = [])).
Proof.
  intros H. rewrite constructor_cases in *.
  destruct (_isValidSecret (JString text)); [|discriminate].
  cbn [result snd] in H. injection H as <-.
  set (this := {| secret := JString text; window := w; interval := i;
                  otpLength := len; algorithm := alg |}).
  split; [reflexivity|]. split; [reflexivity|]. split; [|split; [|split]].
  - intros counter. apply (derivation_decodes_once createHmac this).
  - intros now Hi. unfold generateTOTP, counterOf, emit, ret.
    change (interval this) with i.
    replace (i =? 0) with false by lia. rewrite !bind_return.
    destruct (derivation_decodes_once createHmac this (now / (1000 * i))) as (rest & E & Hr).
    exists rest. split; [|exact Hr].
    cbn [trace fst app] in *. rewrite E. reflexivity.
  - intros now Hi. unfold generateTOTP, counterOf, emit.
    change (interval this) with i. rewrite Hi. reflexivity.
  - intros now s Hs. destruct (Z.eq_dec i 0) as [Hi|Hi].
    + exists [], (window_of (now / (1000 * i)) w).
      assert (E : trace (verifyTOTP createHmac this now (JString s)) = [DateNow]).
      { unfold verifyTOTP, counterOf, emit.
        change (is_string (JString s)) with true. change (ToString (JString s)) with s.
        apply otp_re_shape in Hs. rewrite Hs.
        change (interval this) with i. rewrite Hi. reflexivity. }
      rewrite E. split; [reflexivity|]. split; [reflexivity|]. split; reflexivity.
    + rewrite (verify_accepts_input createHmac this now s Hs Hi).
      change (interval this) with i. change (window this) with w.
      destruct (verify_loop_tried createHmac this (JString s) (now / (1000 * i))
                  (Z.to_nat (2 * w + 1)) (- w)) as (tried & later & Hc & Ht).
      exists tried, later. split; [|split; [|split]].
      * unfold window_of.
        replace (now / (1000 * i) - w) with (now / (1000 * i) + - w) by lia. exact Hc.
      * unfold trace in *. cbn [fst]. rewrite Ht. reflexivity.
      * unfold trace in *. cbn [fst]. rewrite Ht.
        cbn [decode_calls]. apply (decode_calls_derivations createHmac this).
      * intros Hz. contradiction.
Qed.

(** The engine built from ["JBSWY3DPEHPK3PXP"] with window 1. *)
Lemma constructor_keeps_text_derivation_decodes_witness :
  let text := lit "JBSWY3DPEHPK3PXP" in
  let this := {| secret := JString text; window := 1; interval := 30;
                 otpLength := 6; algorithm := "sha1" |} in
  trace (TOTP_new (JString text) 1 30 6 "sha1") = [] /\
  secret this = JString text /\
  (forall counter, exists rest,
     trace (_generateTOTP Sha1.createHmac this counter) = Base32Decode (JString text) :: rest /\
     decode_calls rest = []) /\
  (forall now, 30 <> 0 -> exists rest,
     trace (generateTOTP Sha1.createHmac this now) =
       DateNow :: Base32Decode (JString text) :: rest /\
     decode_calls rest = []) /\
  (forall now, 30 = 0 -> trace (generateTOTP Sha1.createHmac this now) = [DateNow]) /\
  (forall now s, digits_shape s ->
     exists tried later,
       window_of (now / (1000 * 30)) 1 = tried ++ later /\
       trace (verifyTOTP Sha1.createHmac this now (JString s)) =
         DateNow :: flat_map (fun k => trace (_generateTOTP Sha1.createHmac this k)) tried /\
       decode_calls (trace (verifyTOTP Sha1.createHmac this now (JString s))) =
         map (fun _ => JString text) tried /\
       (30 = 0 -> tried = [])).
Proof.
  intros text this.
  apply (constructor_keeps_text_derivation_decodes Sha1.createHmac text 1 30 6%nat "sha1"%string this).
  reflexivity.
Defined.

(** ** The derivation and its test vector *)

Ltac conj_split := repeat match goal with |- _ /\ _ => split end.

Lemma sha1_length (msg : list byte) : length (Sha1.sha1 msg) = 20%nat.
Proof. unfold Sha1.sha1. rewrite !length_app. reflexivity. Qed.

Lemma hmac_sha1_length (key data : list byte) : length (Sha1.hmac key data) = 20%nat.
Proof. unfold Sha1.hmac. apply sha1_length. Qed.

(** The secret ["JBSWY3DPEHPK3PXP"], HMAC-SHA-1, six digits, counter 57683525. *)
Lemma hotp_refines_rfc4226_witness :
  let text := lit "JBSWY3DPEHPK3PXP" in
  exists secretBytes code,
    Base32.decode (JString text) = Return secretBytes /\
    Rfc4226.be_value (Rfc4226.counterBytes 57683525) = 57683525 /\
    Rfc4226.hotp Sha1.hmac secretBytes 57683525 6 = Some code /\
    _generateTOTP Sha1.createHmac
      {| secret := JString text; window := 0; interval := 30; otpLength := 6;
         algorithm := "sha1" |} 57683525 =
      ([Base32Decode (JString text); CreateHmac "sha1" secretBytes;
        HmacUpdate (Rfc4226.counterBytes 57683525)], Return code) /\
    0 <= code < 10 ^ Z.of_nat 6.
Proof.
  intros text.
  apply (hotp_refines_rfc4226 Sha1.createHmac text 0 30 6%nat "sha1"%string _ Sha1.hmac 57683525).
  - reflexivity.
  - reflexivity.
  - intros key data. rewrite hmac_sha1_length. apply le_n.
  - vm_compute. split; [discriminate | reflexivity].
Defined.

(** C2, the claim as stated fails: ["GEZDGNBVGY3TQOJQ"] is the base32 text
    of the ten bytes ["1234567890"], and with that key, SHA-1 and eight
    digits the code of counter 1 (time 59 s) is 13263420. *)
Lemma short_secret_misses_rfc6238_vector :
  exists this,
    TOTP_new (JString (lit "GEZDGNBVGY3TQOJQ")) 0 30 8 "sha1" = ([], Return this) /\
    Base32.decode (secret this) = Return (map z2b (lit "1234567890")) /\
    59 * 1000 / (1000 * 30) = 1 /\
    result (_generateTOTP Sha1.createHmac this 1) = Return 13263420 /\
    result (generateTOTP Sha1.createHmac this (59 * 1000)) = Return 13263420 /\
    result (_generateTOTP Sha1.createHmac this 1) <> Return 94287082.
Proof.
  eexists. split; [reflexivity|]. conj_split; try (vm_compute; reflexivity).
  vm_compute. discriminate.
Qed.

(** C2, as amended. With the secret text
    ["GEZDGNBVGY3TQOJQGEZDGNBVGY3TQOJQ"], the base32 text of the twenty
    bytes ["12345678901234567890"], SHA-1, a 30 second interval and eight
    digits, the code of counter 1 (time 59 s) is the RFC 6238 value
    94287082. *)
Theorem rfc6238_vector_sha1_counter_1 :
  exists this,
    TOTP_new (JString (lit "GEZDGNBVGY3TQOJQGEZDGNBVGY3TQOJQ")) 0 30 8 "sha1" = ([], Return this) /\
    Base32.decode (secret this) = Return (map z2b (lit "12345678901234567890")) /\
    59 * 1000 / (1000 * interval this) = 1 /\
    result (_generateTOTP Sha1.createHmac this 1) = Return 94287082 /\
    result (generateTOTP Sha1.createHmac this (59 * 1000)) = Return 94287082.
Proof.
  eexists. split; [reflexivity|]. conj_split; vm_compute; reflexivity.
Qed.

(** ** Verification over the window *)

(** C3, the claim as stated fails: with window 1, ten seconds after the
    epoch, the first counter tried is -1, which [writeBigUInt64BE] refuses:
    [verifyTOTP] throws [RangeError] on a well-formed code. *)
Lemma verify_throws_below_window :
  let this := {| secret := JString (lit "JBSWY3DPEHPK3PXP"); window := 1; interval := 30;
                 otpLength := 6; algorithm := "sha1" |} in
  TOTP_new (JString (lit "JBSWY3DPEHPK3PXP")) 1 30 6 "sha1" = ([], Return this) /\
  0 <= window this /\
  digits_shape (lit "123456") /\
  10000 / (1000 * interval this) - window this = -1 /\
  verifyTOTP Sha1.createHmac this 10000 (JString (lit "123456")) =
    ([DateNow; Base32Decode (secret this)], Throw RangeError).
Proof.
  intros this. split; [reflexivity|]. split; [cbn; lia|].
  split; [apply otp_re_shape; vm_compute; reflexivity|]. split; vm_compute; reflexivity.
Qed.

(** C3, as amended. For an engine built from a secret text, with a hash the
    platform knows, a positive interval and a window [w >= 0], called at a
    time whose counter [c] satisfies [w <= c] and [c + w < 2^64], and for
    every input of one or more decimal digits, [verifyTOTP] returns: the
    window holds the [2w+1] counters [c-w], ..., [c+w] in that order; the
    derivation returns on each of them; the engine reads the clock, then
    derives the code of the counters of the window in order up to the first
    whose code equals the integer value of the input, and no further; it
    returns [{success: true, message: "TOTP verified"}] when there is one
    and [{success: false, message: "Invalid TOTP"}] when there is none. *)
Theorem verify_scans_window
    (createHmac : string -> option (list byte -> list byte -> list byte))
    (text : jsstring) (w i : Z) (len : nat) (alg : string)
    (this : TOTP) (h : list byte -> list byte -> list byte) (now : Z) (s : jsstring) :
  result (TOTP_new (JString text) w i len alg) = Return this ->
  createHmac alg = Some h ->
  0 < i -> 0 <= w ->
  digits_shape s ->
  w <= now / (1000 * i) -> now / (1000 * i) + w < 2 ^ 64 ->
  length (window_of (now / (1000 * i)) w) = Z.to_nat (2 * w + 1) /\
  (forall n, (n < Z.to_nat (2 * w + 1))%nat ->
     nth_error (window_of (now / (1000 * i)) w) n = Some (now / (1000 * i) - w + Z.of_nat n)) /\
  exists (key : list byte) (code : Z -> Z),
    (forall k, now / (1000 * i) - w <= k <= now / (1000 * i) + w ->
               _generateTOTP createHmac this k = (hotp_calls this key k, Return (code k))) /\
    verifyTOTP createHmac this now (JString s) =
      (DateNow :: flat_map (hotp_calls this key)
                    (upto_first (fun k => parseInt10 s =? code k)
                                (window_of (now / (1000 * i)) w)),
       Return (if existsb (fun k => parseInt10 s =? code k) (window_of (now / (1000 * i)) w)
               then verified else rejected)).
Proof.
  intros Hnew Hh Hi Hw Hs Hlo Hhi.
  split; [apply counters_from_length|].
  split; [intros n Hn; apply counters_from_nth; exact Hn|].
  destruct (verify_window_scan createHmac text w i len alg this h now Hnew Hh Hi Hw Hlo Hhi)
    as (key & code & _ & _ & G & V).
  exists key, code. split; [exact G | apply V; exact Hs].
Qed.

(** Window 1 around counter 57683525, where the code 854198 is found at the
    first counter tried. *)
Lemma verify_scans_window_witness :
  let text := lit "JBSWY3DPEHPK3PXP" in
  let this := {| secret := JString text; window := 1; interval := 30; otpLength := 6;
                 algorithm := "sha1" |} in
  let now := 1730505750000 in
  let s := lit "854198" in
  length (window_of (now / (1000 * 30)) 1) = Z.to_nat (2 * 1 + 1) /\
  (forall n, (n < Z.to_nat (2 * 1 + 1))%nat ->
     nth_error (window_of (now / (1000 * 30)) 1) n = Some (now / (1000 * 30) - 1 + Z.of_nat n)) /\
  exists (key : list byte) (code : Z -> Z),
    (forall k, now / (1000 * 30) - 1 <= k <= now / (1000 * 30) + 1 ->
               _generateTOTP Sha1.createHmac this k = (hotp_calls this key k, Return (code k))) /\
    verifyTOTP Sha1.createHmac this now (JString s) =
      (DateNow :: flat_map (hotp_calls this key)
                    (upto_first (fun k => parseInt10 s =? code k)
                                (window_of (now / (1000 * 30)) 1)),
       Return (if existsb (fun k => parseInt10 s =? code k) (window_of (now / (1000 * 30)) 1)
               then verified else rejected)).
Proof.
  intros text this now s.
  apply (verify_scans_window Sha1.createHmac text 1 30 6%nat "sha1"%string this Sha1.hmac now s).
  - reflexivity.
  - reflexivity.
  - lia.
  - lia.
  - apply otp_re_shape. reflexivity.
  - vm_compute. discriminate.
  - vm_compute. reflexivity.
Defined.

(** ** Generation, then verification *)

(** On a number, which is what [generateTOTP] returns, [verifyTOTP] throws
    [TypeError] at once, at whatever time it is called. *)
Lemma verify_refuses_generated_number
    (createHmac : string -> option (list byte -> list byte -> list byte))
    (this : TOTP) (now now' otp : Z) :
  result (generateTOTP createHmac this now) = Return otp ->
  verifyTOTP createHmac this now' (JNumber otp) = ([], Throw TypeError).
Proof. intros _. reflexivity. Qed.

(** C4, the claim as stated fails: ten seconds after the epoch (counter 0)
    the engine with window 1 generates 282760; verified at the same time,
    that code is refused as the number [generateTOTP] returned
    ([TypeError]), and as its decimal text too, since the window starts at
    counter -1 ([RangeError]). *)
Lemma generated_code_not_verified_at_epoch :
  let this := {| secret := JString (lit "JBSWY3DPEHPK3PXP"); window := 1; interval := 30;
                 otpLength := 6; algorithm := "sha1" |} in
  TOTP_new (JString (lit "JBSWY3DPEHPK3PXP")) 1 30 6 "sha1" = ([], Return this) /\
  10000 / (1000 * interval this) = 0 /\
  result (generateTOTP Sha1.createHmac this 10000) = Return 282760 /\
  result (verifyTOTP Sha1.createHmac this 10000 (JNumber 282760)) = Throw TypeError /\
  decimal 282760 = lit "282760" /\
  result (verifyTOTP Sha1.createHmac this 10000 (JString (lit "282760"))) = Throw RangeError.
Proof.
  intros this. split; [reflexivity|]. conj_split; vm_compute; reflexivity.
Qed.

(** C4, as amended. If [generateTOTP] at a time whose counter is [k] returns
    the code [C], then for the engine built from the same secret text and
    configuration with window [w >= 0], [verifyTOTP] returns
    [{success: true, message: "TOTP verified"}] on every string of decimal
    digits whose integer value is [C], the decimal text of [C] among them,
    at every time whose counter [c] satisfies [c - w <= k <= c + w],
    [w <= c] and [c + w < 2^64]. *)
Theorem verify_accepts_generated_code
    (createHmac : string -> option (list byte -> list byte -> list byte))
    (text : jsstring) (w i : Z) (len : nat) (alg : string)
    (this : TOTP) (h : list byte -> list byte -> list byte) (now now' otp : Z) :
  result (TOTP_new (JString text) w i len alg) = Return this ->
  createHmac alg = Some h ->
  0 < i -> 0 <= w ->
  result (generateTOTP createHmac this now) = Return otp ->
  now' / (1000 * i) - w <= now / (1000 * i) <= now' / (1000 * i) + w ->
  w <= now' / (1000 * i) -> now' / (1000 * i) + w < 2 ^ 64 ->
  (forall s, digits_shape s -> parseInt10 s = otp ->
     result (verifyTOTP createHmac this now' (JString s)) = Return verified) /\
  result (verifyTOTP createHmac this now' (JString (decimal otp))) = Return verified.
Proof.
  intros Hnew Hh Hi Hw Hgen Hk Hlo Hhi.
  destruct (verify_window_scan createHmac text w i len alg this h now' Hnew Hh Hi Hw Hlo Hhi)
    as (key & code & _ & R & G & V).
  assert (Ei : interval this = i) by (apply constructed in Hnew as [_ ->]; reflexivity).
  unfold generateTOTP, counterOf, emit, ret in Hgen. rewrite Ei in Hgen.
  replace (i =? 0) with false in Hgen by lia. rewrite !result_bind_return in Hgen.
  rewrite (G _ Hk), result_pair in Hgen.
  assert (E : otp = code (now / (1000 * i))) by congruence. subst otp.
  assert (A : forall s, digits_shape s -> parseInt10 s = code (now / (1000 * i)) ->
              result (verifyTOTP createHmac this now' (JString s)) = Return verified).
  { intros s D P. rewrite (V _ D), result_pair, P.
    replace (existsb _ _) with true; [reflexivity|].
    symmetry. apply existsb_exists. exists (now / (1000 * i)). split.
    - unfold window_of. apply counters_from_has. rewrite Z2Nat.id by lia. lia.
    - apply Z.eqb_refl. }
  split; [exact A|].
  destruct (decimal_spec (code (now / (1000 * i)))) as [P D]; [apply R|].
  apply A; assumption.
Qed.

(** The default engine with window 1: the code generated at 1730505810 s,
    464133, is verified one interval later, at 1730505840 s. *)
Lemma verify_accepts_generated_code_witness :
  let text := lit "JBSWY3DPEHPK3PXP" in
  let this := {| secret := JString text; window := 1; interval := 30; otpLength := 6;
                 algorithm := "sha1" |} in
  (forall s, digits_shape s -> parseInt10 s = 464133 ->
     result (verifyTOTP Sha1.createHmac this 1730505840000 (JString s)) = Return verified) /\
  result (verifyTOTP Sha1.createHmac this 1730505840000 (JString (decimal 464133))) =
    Return verified.
Proof.
  intros text this.
  apply (verify_accepts_generated_code Sha1.createHmac text 1 30 6%nat "sha1"%string
           this Sha1.hmac 1730505810000 1730505840000 464133).
  - reflexivity.
  - reflexivity.
  - lia.
  - lia.
  - vm_compute. reflexivity.
  - vm_compute. split; discriminate.
  - vm_compute. discriminate.
  - vm_compute. reflexivity.
Defined.

(** ** Window zero *)

(** C5, the claim as stated fails: for the secret ["JBSWY3DPEHPK3PXP"] with
    the default configuration the counters 57683524 and 57683525 have the
    same code, 854198; the code generated in the earlier interval is
    accepted in the later one with window 0. *)
Lemma window_zero_accepts_colliding_previous_code :
  let this := {| secret := JString (lit "JBSWY3DPEHPK3PXP"); window := 0; interval := 30;
                 otpLength := 6; algorithm := "sha1" |} in
  let now := 1730505750000 in
  TOTP_default (JString (lit "JBSWY3DPEHPK3PXP")) = ([], Return this) /\
  now / (1000 * interval this) = 57683525 /\
  (now - 30000) / (1000 * interval this) = 57683525 - 1 /\
  result (generateTOTP Sha1.createHmac this (now - 30000)) = Return 854198 /\
  result (verifyTOTP Sha1.createHmac this now (JString (lit "854198"))) = Return verified.
Proof.
  intros this now. split; [reflexivity|]. conj_split; vm_compute; reflexivity.
Qed.

(** C5, as amended. With window 0, at a time whose counter [c] fits 64
    bits, [verifyTOTP] derives the code of [c] and of no other counter, and
    accepts an input of decimal digits exactly when its integer value is
    that code; the code of the counter before or after [c] is therefore
    rejected exactly when it differs from the code of [c]. *)
Theorem window_zero_checks_current_counter
    (createHmac : string -> option (list byte -> list byte -> list byte))
    (text : jsstring) (i : Z) (len : nat) (alg : string)
    (this : TOTP) (h : list byte -> list byte -> list byte) (now : Z) :
  result (TOTP_new (JString text) 0 i len alg) = Return this ->
  createHmac alg = Some h ->
  0 < i ->
  0 <= now / (1000 * i) < 2 ^ 64 ->
  exists (key : list byte) (current : Z),
    _generateTOTP createHmac this (now / (1000 * i)) =
      (hotp_calls this key (now / (1000 * i)), Return current) /\
    (forall s, digits_shape s ->
       verifyTOTP createHmac this now (JString s) =
         (DateNow :: hotp_calls this key (now / (1000 * i)),
          Return (if parseInt10 s =? current then verified else rejected))) /\
    (forall k other,
       k = now / (1000 * i) - 1 \/ k = now / (1000 * i) + 1 ->
       result (_generateTOTP createHmac this k) = Return other ->
       result (verifyTOTP createHmac this now (JString (decimal other))) =
         Return (if other =? current then verified else rejected)).
Proof.
  intros Hnew Hh Hi Hc.
  destruct (verify_window_scan createHmac text 0 i len alg this h now Hnew Hh Hi)
    as (key & code & Hk & R & G & V); try lia.
  set (c := now / (1000 * i)) in *.
  assert (W : window_of c 0 = [c]).
  { unfold window_of. cbn [Z.mul Z.add Z.to_nat Pos.to_nat Pos.iter_op counters_from].
    rewrite Z.sub_0_r. reflexivity. }
  assert (V' : forall s, digits_shape s ->
            verifyTOTP createHmac this now (JString s) =
              (DateNow :: hotp_calls this key c,
               Return (if parseInt10 s =? code c then verified else rejected))).
  { intros s Hs. rewrite (V s Hs), W. cbn [upto_first existsb flat_map].
    rewrite orb_false_r. destruct (parseInt10 s =? code c); try rewrite app_nil_r; reflexivity. }
  exists key, (code c). split; [apply G; lia|]. split; [exact V'|].
  intros k other Hadj Hother.
  assert (Ho : 0 <= other).
  { destruct (Z_lt_dec k 0) as [Neg|Pos].
    - rewrite (generate_out_of_range createHmac this key k Hk) in Hother by lia. discriminate.
    - destruct (Z_lt_dec k (2 ^ 64)) as [Lt|Ge].
      + apply constructed in Hnew as [_ ->].
        rewrite (generate_returns createHmac _ h key k Hk Hh) in Hother by lia.
        cbn [result snd otpLength] in Hother. injection Hother as <-. apply code_range.
      + rewrite (generate_out_of_range createHmac this key k Hk) in Hother by lia. discriminate. }
  destruct (decimal_spec other Ho) as [P D].
  rewrite (V' _ D), P. reflexivity.
Qed.

(** The default engine at 1730505750 s, counter 57683525. *)
Lemma window_zero_checks_current_counter_witness :
  let text := lit "JBSWY3DPEHPK3PXP" in
  let this := {| secret := JString text; window := 0; interval := 30; otpLength := 6;
                 algorithm := "sha1" |} in
  let now := 1730505750000 in
  exists (key : list byte) (current : Z),
    _generateTOTP Sha1.createHmac this (now / (1000 * 30)) =
      (hotp_calls this key (now / (1000 * 30)), Return current) /\
    (forall s, digits_shape s ->
       verifyTOTP Sha1.createHmac this now (JString s) =
         (DateNow :: hotp_calls this key (now / (1000 * 30)),
          Return (if parseInt10 s =? current then verified else rejected))) /\
    (forall k other,
       k = now / (1000 * 30) - 1 \/ k = now / (1000 * 30) + 1 ->
       result (_generateTOTP Sha1.createHmac this k) = Return other ->
       result (verifyTOTP Sha1.createHmac this now (JString (decimal other))) =
         Return (if other =? current then verified else rejected)).
Proof.
  intros text this now.
  apply (window_zero_checks_current_counter Sha1.createHmac text 30 6%nat "sha1"%string
           this Sha1.hmac now).
  - reflexivity.
  - reflexivity.
  - lia.
  - vm_compute. split; [discriminate | reflexivity].
Defined.

(** ** Secret provisioning *)

Lemma encode_string (s : jsstring) :
  Base32.encode (JString s) = Return (map z2b (Rfc4648.encode (Utf8.encode s))).
Proof. cbn [Base32.encode]. apply EncodeLoop.encode_bytes_rfc4648. Qed.

Lemma generateSecret_cases (random : list byte) (input : jsval) :
  generateSecret random input =
    ([RandomBytes 10; Base32Encode (JString (Base64.toString random ++ label_text input))],
     Return (JBuffer (map z2b (Rfc4648.encode
                                 (Utf8.encode (Base64.toString random ++ label_text input)))))).
Proof.
  unfold generateSecret, label_text.
  assert (E : (if ToBoolean input then Base64.toString random ++ ToString input
               else Base64.toString random) =
              Base64.toString random ++ (if ToBoolean input then ToString input else [])).
  { destruct (ToBoolean input); [reflexivity | rewrite app_nil_r; reflexivity]. }
  rewrite E. rewrite encode_string. reflexivity.
Qed.

(** C9, the claim as stated fails: for ten zero bytes and no label the
    result is the base32 text of the sixteen characters
    ["AAAAAAAAAAAAAA=="], the base64 text of the random bytes, and not the
    base32 text ["AAAAAAAAAAAAAAAA"] of the random bytes themselves. *)
Lemma generateSecret_not_base32_of_random_bytes :
  let random := repeat x00 10 in
  result (generateSecret random JUndefined) =
    Return (JBuffer (map z2b (lit "IFAUCQKBIFAUCQKBIFAUCQJ5HU======"))) /\
  Base64.toString random = lit "AAAAAAAAAAAAAA==" /\
  Rfc4648.encode (random ++ Utf8.encode (label_text JUndefined)) = lit "AAAAAAAAAAAAAAAA" /\
  Base32.encode (JBuffer (random ++ Utf8.encode (label_text JUndefined))) =
    Return (map z2b (lit "AAAAAAAAAAAAAAAA")) /\
  result (generateSecret random JUndefined) <>
    Return (JBuffer (map z2b (Rfc4648.encode (random ++ Utf8.encode (label_text JUndefined))))).
Proof.
  intros random. conj_split; try (vm_compute; reflexivity).
  vm_compute. discriminate.
Qed.

(** C9, as amended. For every outcome of [crypto.randomBytes(10)] and every
    label, [generateSecret] returns the RFC 4648 base32 text of the UTF-8
    bytes of a text: the base64 text of the random bytes, followed by the
    label when one is given (and not empty). Its calls are
    [crypto.randomBytes(10)], then [base32.encode] on that text. *)
Theorem generateSecret_encodes_base64_text (random : list byte) (input : jsval) :
  generateSecret random input =
    ([RandomBytes 10; Base32Encode (JString (Base64.toString random ++ label_text input))],
     Return (JBuffer (map z2b (Rfc4648.encode
                                 (Utf8.encode (Base64.toString random ++ label_text input)))))).
Proof. apply generateSecret_cases. Qed.

(** *** The text of [Rfc4648.encode] is an accepted secret *)

Lemma value5_range (a b c d e : bool) : 0 <= Rfc4648.value [a; b; c; d; e] < 32.
Proof. destruct a, b, c, d, e; vm_compute; split; (discriminate || reflexivity). Qed.

Lemma groups_range (n : nat) :
  forall l, (length l <= n)%nat -> Forall (fun d => 0 <= d < 32) (Rfc4648.groups l).
Proof.
  induction n as [n IH] using lt_wf_ind. intros l Hl.
  destruct l as [|a [|b [|c [|d [|e l]]]]]; cbn [Rfc4648.groups].
  - constructor.
  - repeat constructor; apply value5_range.
  - repeat constructor; apply value5_range.
  - repeat constructor; apply value5_range.
  - repeat constructor; apply value5_range.
  - constructor; [apply value5_range|].
    apply (IH (length l)); [cbn [length] in Hl; lia | lia].
Qed.

Lemma symbol_class (d : Z) :
  0 <= d < 32 -> 65 <= Rfc4648.symbol d <= 90 \/ 50 <= Rfc4648.symbol d <= 55.
Proof. intros H. unfold Rfc4648.symbol. destruct (Z.ltb_spec d 26); lia. Qed.

Lemma groups_nonempty (l : list bool) : l <> [] -> Rfc4648.groups l <> [].
Proof. destruct l as [|a [|b [|c [|d [|e l]]]]]; cbn [Rfc4648.groups]; congruence. Qed.

Lemma encode_shape (bytes : list byte) : bytes <> [] -> secret_shape (Rfc4648.encode bytes).
Proof.
  intros Hne. unfold Rfc4648.encode, secret_shape.
  exists (map Rfc4648.symbol (Rfc4648.groups (flat_map Rfc4648.bits bytes))),
         (repeat 61 (Rfc4648.padding
                       (length (map Rfc4648.symbol
                                  (Rfc4648.groups (flat_map Rfc4648.bits bytes)))))).
  split; [reflexivity|]. split; [|split].
  - destruct bytes as [|b bytes]; [congruence|].
    intros E. apply map_eq_nil in E. revert E. apply groups_nonempty.
    cbn [flat_map Rfc4648.bits map app]. discriminate.
  - apply Forall_map. eapply Forall_impl; [|apply (groups_range _ _ (le_n _))].
    intros d Hd. apply symbol_class. exact Hd.
  - apply Forall_forall. intros c Hc. apply repeat_spec in Hc. exact Hc.
Qed.

Lemma encode_point_nonempty (cp : Z) : Utf8.encode_point cp <> [].
Proof.
  unfold Utf8.encode_point.
  destruct (cp <? 128); [discriminate|].
  destruct (cp <? 2048); [discriminate|].
  destruct (cp <? 65536); discriminate.
Qed.

Lemma app_nonempty {A} (l1 l2 : list A) : l1 <> [] -> l1 ++ l2 <> [].
Proof. destruct l1; [congruence | discriminate]. Qed.

Lemma utf8_encode_nonempty (s : jsstring) : s <> [] -> Utf8.encode s <> [].
Proof.
  destruct s as [|c rest]; [congruence|]. intros _. cbn [Utf8.encode].
  destruct (Utf8.is_high_surrogate c).
  - destruct rest as [|d rest']; [discriminate|].
    destruct (Utf8.is_low_surrogate d); apply app_nonempty;
      [apply encode_point_nonempty | discriminate].
  - destruct (Utf8.is_low_surrogate c); apply app_nonempty;
      [discriminate | apply encode_point_nonempty].
Qed.

Lemma base64_nonempty (bs : list byte) : bs <> [] -> Base64.toString bs <> [].
Proof.
  destruct bs as [|a [|b [|c rest]]]; [congruence| | |]; intros _;
    cbn [Base64.toString]; discriminate.
Qed.

(** C10. For every outcome of [crypto.randomBytes(10)] and every label,
    [generateSecret] returns a [Buffer] whose text is one or more characters
    of [A-Z2-7] followed by [=] signs only; it passes [_isValidSecret], and
    the constructor accepts it with every configuration. *)
Theorem generateSecret_passes_validity_check (random : list byte) (input : jsval)
    (w i : Z) (len : nat) (alg : string) :
  length random = 10%nat ->
  exists buf,
    result (generateSecret random input) = Return (JBuffer buf) /\
    secret_shape (ToString (JBuffer buf)) /\
    _isValidSecret (JBuffer buf) = true /\
    TOTP_new (JBuffer buf) w i len alg =
      ([], Return {| secret := JBuffer buf; window := w; interval := i;
                     otpLength := len; algorithm := alg |}).
Proof.
  intros Hlen. rewrite generateSecret_cases.
  set (bytes := Utf8.encode (Base64.toString random ++ label_text input)).
  assert (Hb : bytes <> []).
  { apply utf8_encode_nonempty, app_nonempty, base64_nonempty.
    destruct random; [discriminate Hlen | discriminate]. }
  pose proof (encode_shape bytes Hb) as Hs.
  assert (Ht : ToString (JBuffer (map z2b (Rfc4648.encode bytes))) = Rfc4648.encode bytes).
  { cbn [ToString]. apply utf8_decode_text, secret_shape_ascii, Hs. }
  assert (Hv : _isValidSecret (JBuffer (map z2b (Rfc4648.encode bytes))) = true).
  { unfold _isValidSecret. rewrite Ht. apply secret_re_shape, Hs. }
  exists (map z2b (Rfc4648.encode bytes)).
  split; [reflexivity|]. split; [rewrite Ht; exact Hs|]. split; [exact Hv|].
  rewrite constructor_cases, Hv. reflexivity.
Qed.

(** Ten bytes and the label ["TestSite"]. *)
Lemma generateSecret_passes_validity_check_witness :
  let random := [x8f; x03; xa1; x5c; xee; x10; x77; xd2; x49; xb6] in
  exists buf,
    result (generateSecret random (JString (lit "TestSite"))) = Return (JBuffer buf) /\
    secret_shape (ToString (JBuffer buf)) /\
    _isValidSecret (JBuffer buf) = true /\
    TOTP_new (JBuffer buf) 0 30 6 "sha1" =
      ([], Return {| secret := JBuffer buf; window := 0; interval := 30;
                     otpLength := 6; algorithm := "sha1" |}).
Proof.
  intros random.
  apply (generateSecret_passes_validity_check random (JString (lit "TestSite")) 0 30 6%nat
           "sha1"%string).
  reflexivity.
Defined.

(* ================================================================== *)
(** * Further properties of the engine *)

(** ** How [generateTOTP] ends *)

Section Outcomes.
Variable createHmac : string -> option (list byte -> list byte -> list byte).

Lemma generate_unknown_algorithm (this : TOTP) (key : list byte) (counter : Z) :
  Base32.decode (secret this) = Return key ->
  0 <= counter < 2 ^ 64 ->
  createHmac (algorithm this) = None ->
  _generateTOTP createHmac this counter =
    ([Base32Decode (secret this); CreateHmac (algorithm this) key], Throw TypeError).
Proof.
  intros Hk Hc Hn. unfold _generateTOTP, hmac_digest.
  rewrite Hk, Hn, writeBigUInt64BE_bytes by assumption. reflexivity.
Qed.

Lemma generate_at (this : TOTP) (now : Z) :
  interval this <> 0 ->
  generateTOTP createHmac this now =
    (DateNow :: trace (_generateTOTP createHmac this (now / (1000 * interval this))),
     result (_generateTOTP createHmac this (now / (1000 * interval this)))).
Proof.
  intros Hi. unfold generateTOTP, counterOf, emit, ret.
  replace (interval this =? 0) with false by lia.
  rewrite !bind_return. reflexivity.
Qed.

Lemma generate_zero_interval (this : TOTP) (now : Z) :
  interval this = 0 -> generateTOTP createHmac this now = ([DateNow], Throw RangeError).
Proof.
  intros Hi. unfold generateTOTP, counterOf, emit. rewrite Hi. reflexivity.
Qed.

(** X1. How [generateTOTP] ends, for an engine the constructor built from a
    secret text: with interval 0 it throws [RangeError] right after reading
    the clock ([BigInt(Infinity)] or [BigInt(NaN)]); with a counter outside
    0 .. 2^64 - 1 (a clock before the epoch, a negative interval) it throws
    [RangeError] once the secret is decoded ([writeBigUInt64BE]); with an
    algorithm [createHmac] does not know it throws [TypeError] there; in every
    other case it returns a code below 10^otpLength after one derivation.
    The secret text always decodes. *)
Theorem generateTOTP_outcomes (text : jsstring) (w i : Z) (len : nat) (alg : string)
    (this : TOTP) (now : Z) :
  result (TOTP_new (JString text) w i len alg) = Return this ->
  exists key,
    Base32.decode (JString text) = Return key /\
    (i = 0 -> generateTOTP createHmac this now = ([DateNow], Throw RangeError)) /\
    (i <> 0 -> now / (1000 * i) < 0 \/ 2 ^ 64 <= now / (1000 * i) ->
       generateTOTP createHmac this now =
         ([DateNow; Base32Decode (JString text)], Throw RangeError)) /\
    (i <> 0 -> 0 <= now / (1000 * i) < 2 ^ 64 -> createHmac alg = None ->
       generateTOTP createHmac this now =
         ([DateNow; Base32Decode (JString text); CreateHmac alg key], Throw TypeError)) /\
    (i <> 0 -> 0 <= now / (1000 * i) < 2 ^ 64 ->
       forall h, createHmac alg = Some h ->
       exists code,
         generateTOTP createHmac this now =
           (DateNow :: hotp_calls this key (now / (1000 * i)), Return code) /\
         0 <= code < 10 ^ Z.of_nat len).
Proof.
  intros Hnew. apply constructed in Hnew as [V ->].
  destruct (decode_secret_returns text) as [key Hk]; [apply secret_re_shape; exact V|].
  set (this := {| secret := JString text; window := w; interval := i;
                  otpLength := len; algorithm := alg |}).
  exists key. split; [exact Hk|]. split; [|split; [|split]].
  - intros Hi. apply generate_zero_interval. exact Hi.
  - intros Hi Hc. rewrite generate_at by exact Hi. change (interval this) with i.
    rewrite (generate_out_of_range createHmac this key _ Hk Hc). reflexivity.
  - intros Hi Hc Hn. rewrite generate_at by exact Hi. change (interval this) with i.
    rewrite (generate_unknown_algorithm this key _ Hk Hc Hn). reflexivity.
  - intros Hi Hc h Hh. rewrite generate_at by exact Hi. change (interval this) with i.
    rewrite (generate_returns createHmac this h key _ Hk Hh Hc).
    eexists. split; [reflexivity|]. apply code_range.
Qed.

End Outcomes.

(** The default engine on secret [JBSWY3DPEHPK3PXP], at 1730505750 s. *)
Lemma generateTOTP_outcomes_witness :
  let text := lit "JBSWY3DPEHPK3PXP" in
  let this := {| secret := JString text; window := 0; interval := 30; otpLength := 6;
                 algorithm := "sha1" |} in
  let now := 1730505750000 in
  exists key,
    Base32.decode (JString text) = Return key /\
    (30 = 0 -> generateTOTP Sha1.createHmac this now = ([DateNow], Throw RangeError)) /\
    (30 <> 0 -> now / (1000 * 30) < 0 \/ 2 ^ 64 <= now / (1000 * 30) ->
       generateTOTP Sha1.createHmac this now =
         ([DateNow; Base32Decode (JString text)], Throw RangeError)) /\
    (30 <> 0 -> 0 <= now / (1000 * 30) < 2 ^ 64 -> Sha1.createHmac "sha1" = None ->
       generateTOTP Sha1.createHmac this now =
         ([DateNow; Base32Decode (JString text); CreateHmac "sha1" key], Throw TypeError)) /\
    (30 <> 0 -> 0 <= now / (1000 * 30) < 2 ^ 64 ->
       forall h, Sha1.createHmac "sha1" = Some h ->
       exists code,
         generateTOTP Sha1.createHmac this now =
           (DateNow :: hotp_calls this key (now / (1000 * 30)), Return code) /\
         0 <= code < 10 ^ Z.of_nat 6).
Proof.
  intros text this now.
  apply (generateTOTP_outcomes Sha1.createHmac text 0 30 6%nat "sha1"%string this now).
  reflexivity.
Defined.

(** ** How [verifyTOTP] ends on a well-formed input *)

Section VerifyOutcomes.
Variable createHmac : string -> option (list byte -> list byte -> list byte).

Lemma verify_zero_interval (this : TOTP) (now : Z) (s : jsstring) :
  digits_shape s -> interval this = 0 ->
  verifyTOTP createHmac this now (JString s) = ([DateNow], Throw RangeError).
Proof.
  intros Hs Hi. unfold verifyTOTP, counterOf, emit.
  change (is_string (JString s)) with true. change (ToString (JString s)) with s.
  apply otp_re_shape in Hs. rewrite Hs, Hi. reflexivity.
Qed.

(** The first turn of the loop decides when the derivation throws. *)
Lemma verify_first_throws (this : TOTP) (now : Z) (s : jsstring) (t : list event) (e : exn) :
  digits_shape s -> interval this <> 0 -> 0 <= window this ->
  _generateTOTP createHmac this (now / (1000 * interval this) - window this) = (t, Throw e) ->
  verifyTOTP createHmac this now (JString s) = (DateNow :: t, Throw e).
Proof.
  intros Hs Hi Hw Hg. rewrite verify_accepts_input by assumption.
  replace (Z.to_nat (2 * window this + 1)) with (S (Z.to_nat (2 * window this)))
    by (rewrite <- Z2Nat.inj_succ by lia; f_equal; lia).
  cbn [verify_loop].
  replace (now / (1000 * interval this) + - window this)
    with (now / (1000 * interval this) - window this) by lia.
  rewrite Hg. reflexivity.
Qed.

(** X2. With a negative window the loop of [verifyTOTP] has no turn: every
    string of digits is rejected, and nothing but the clock is read. *)
Theorem verify_negative_window_rejects (this : TOTP) (now : Z) (s : jsstring) :
  window this < 0 -> interval this <> 0 -> digits_shape s ->
  verifyTOTP createHmac this now (JString s) = ([DateNow], Return rejected).
Proof.
  intros Hw Hi Hs. rewrite verify_accepts_input by assumption.
  replace (Z.to_nat (2 * window this + 1)) with 0%nat by lia. reflexivity.
Qed.

(** X3. How [verifyTOTP] throws on a string of digits, for an engine built
    from a secret text: [RangeError] after the clock with interval 0;
    [RangeError] at the first counter of the window when that counter is
    outside 0 .. 2^64 - 1; [TypeError] at the first counter when [createHmac]
    does not know the algorithm. *)
Theorem verifyTOTP_throws_on_configuration (text : jsstring) (w i : Z) (len : nat)
    (alg : string) (this : TOTP) (now : Z) (s : jsstring) :
  result (TOTP_new (JString text) w i len alg) = Return this ->
  digits_shape s ->
  exists key,
    Base32.decode (JString text) = Return key /\
    (i = 0 -> verifyTOTP createHmac this now (JString s) = ([DateNow], Throw RangeError)) /\
    (i <> 0 -> 0 <= w ->
       now / (1000 * i) - w < 0 \/ 2 ^ 64 <= now / (1000 * i) - w ->
       verifyTOTP createHmac this now (JString s) =
         ([DateNow; Base32Decode (JString text)], Throw RangeError)) /\
    (i <> 0 -> 0 <= w ->
       0 <= now / (1000 * i) - w < 2 ^ 64 -> createHmac alg = None ->
       verifyTOTP createHmac this now (JString s) =
         ([DateNow; Base32Decode (JString text); CreateHmac alg key], Throw TypeError)).
Proof.
  intros Hnew Hs. apply constructed in Hnew as [V ->].
  destruct (decode_secret_returns text) as [key Hk]; [apply secret_re_shape; exact V|].
  set (this := {| secret := JString text; window := w; interval := i;
                  otpLength := len; algorithm := alg |}).
  exists key. split; [exact Hk|]. split; [|split].
  - intros Hi. apply verify_zero_interval; assumption.
  - intros Hi Hw Hc. apply verify_first_throws; try assumption.
    apply (generate_out_of_range createHmac this key _ Hk). exact Hc.
  - intros Hi Hw Hc Hn. apply verify_first_throws; try assumption.
    apply (generate_unknown_algorithm createHmac this key _ Hk Hc Hn).
Qed.

(** *** The input counts by its integer value *)

Lemma verify_loop_value (this : TOTP) (v1 v2 : jsval) (c : Z) (n : nat) :
  parseInt10 (ToString v1) = parseInt10 (ToString v2) ->
  forall i, verify_loop createHmac n this v1 c i = verify_loop createHmac n this v2 c i.
Proof.
  intros E. induction n as [|n IH]; intros i; cbn [verify_loop]; [reflexivity|].
  destruct (_generateTOTP createHmac this (c + i)) as [t [otp| e |]]; try reflexivity.
  rewrite !bind_return, E, IH. reflexivity.
Qed.

Lemma parseInt10_leading_zeros (n : nat) (s : jsstring) :
  parseInt10 (repeat 48 n ++ s) = parseInt10 s.
Proof.
  induction n as [|n IH]; [reflexivity|].
  cbn [repeat app]. unfold parseInt10 at 1. cbn [fold_left].
  change (0 * 10 + (48 - 48)) with 0. exact IH.
Qed.

Lemma digits_shape_leading_zeros (n : nat) (s : jsstring) :
  digits_shape s -> digits_shape (repeat 48 n ++ s).
Proof.
  intros [Hne Hd]. split.
  - destruct n; [exact Hne | discriminate].
  - apply Forall_app. split; [|exact Hd].
    apply Forall_forall. intros c Hc. apply repeat_spec in Hc. lia.
Qed.

(** X4. [verifyTOTP] compares [parseInt(inputOTP, 10)]: zeros in front of the
    digits change nothing, the calls and the verdict are the same. *)
Theorem verify_ignores_leading_zeros (this : TOTP) (now : Z) (s : jsstring) (n : nat) :
  digits_shape s ->
  verifyTOTP createHmac this now (JString (repeat 48 n ++ s)) =
  verifyTOTP createHmac this now (JString s).
Proof.
  intros Hs. pose proof (digits_shape_leading_zeros n s Hs) as Hz.
  unfold verifyTOTP.
  change (is_string (JString (repeat 48 n ++ s))) with true.
  change (is_string (JString s)) with true.
  change (ToString (JString (repeat 48 n ++ s))) with (repeat 48 n ++ s).
  change (ToString (JString s)) with s.
  apply otp_re_shape in Hs. apply otp_re_shape in Hz. rewrite Hs, Hz.
  cbn [negb orb]. unfold counterOf.
  destruct (interval this =? 0); [reflexivity|].
  unfold emit, ret. rewrite !bind_return.
  rewrite (verify_loop_value this (JString (repeat 48 n ++ s)) (JString s));
    [reflexivity | apply parseInt10_leading_zeros].
Qed.

End VerifyOutcomes.

(** Window -1. *)
Lemma verify_negative_window_rejects_witness :
  let this := {| secret := JString (lit "JBSWY3DPEHPK3PXP"); window := -1; interval := 30;
                 otpLength := 6; algorithm := "sha1" |} in
  verifyTOTP Sha1.createHmac this 1730505750000 (JString (lit "854198")) =
    ([DateNow], Return rejected).
Proof.
  intros this.
  apply (verify_negative_window_rejects Sha1.createHmac this 1730505750000 (lit "854198")).
  - reflexivity.
  - discriminate.
  - apply otp_re_shape. reflexivity.
Defined.

(** Window 1, ten seconds after the epoch. *)
Lemma verifyTOTP_throws_on_configuration_witness :
  let text := lit "JBSWY3DPEHPK3PXP" in
  let this := {| secret := JString text; window := 1; interval := 30; otpLength := 6;
                 algorithm := "sha1" |} in
  let now := 10000 in
  let s := lit "282760" in
  exists key,
    Base32.decode (JString text) = Return key /\
    (30 = 0 -> verifyTOTP Sha1.createHmac this now (JString s) = ([DateNow], Throw RangeError)) /\
    (30 <> 0 -> 0 <= 1 ->
       now / (1000 * 30) - 1 < 0 \/ 2 ^ 64 <= now / (1000 * 30) - 1 ->
       verifyTOTP Sha1.createHmac this now (JString s) =
         ([DateNow; Base32Decode (JString text)], Throw RangeError)) /\
    (30 <> 0 -> 0 <= 1 ->
       0 <= now / (1000 * 30) - 1 < 2 ^ 64 -> Sha1.createHmac "sha1" = None ->
       verifyTOTP Sha1.createHmac this now (JString s) =
         ([DateNow; Base32Decode (JString text); CreateHmac "sha1" key], Throw TypeError)).
Proof.
  intros text this now s.
  apply (verifyTOTP_throws_on_configuration Sha1.createHmac text 1 30 6%nat "sha1"%string
           this now s).
  - reflexivity.
  - apply otp_re_shape. reflexivity.
Defined.

(** [00854198] and [854198]. *)
Lemma verify_ignores_leading_zeros_witness :
  let this := {| secret := JString (lit "JBSWY3DPEHPK3PXP"); window := 0; interval := 30;
                 otpLength := 6; algorithm := "sha1" |} in
  verifyTOTP Sha1.createHmac this 1730505750000 (JString (repeat 48 2 ++ lit "854198")) =
  verifyTOTP Sha1.createHmac this 1730505750000 (JString (lit "854198")).
Proof.
  intros this.
  apply (verify_ignores_leading_zeros Sha1.createHmac this 1730505750000 (lit "854198") 2%nat).
  apply otp_re_shape. reflexivity.
Defined.

(** ** The code and the clock *)

Section Codes.
Variable createHmac : string -> option (list byte -> list byte -> list byte).

(** [_generateTOTP] by cases: the decoding, the counter, the algorithm. *)
Lemma derivation_form (this : TOTP) (counter : Z) :
  _generateTOTP createHmac this counter =
    match Base32.decode (secret this) with
    | Return key =>
        if (0 <=? counter) && (counter <? 2 ^ 64) then
          match createHmac (algorithm this) with
          | Some h =>
              (hotp_calls this key counter,
               Return (rem (binaryCode (h key (Rfc4226.counterBytes counter)))
                           (10 ^ Z.of_nat (otpLength this))))
          | None => ([Base32Decode (secret this); CreateHmac (algorithm this) key], Throw TypeError)
          end
        else ([Base32Decode (secret this)], Throw RangeError)
    | Throw e => ([Base32Decode (secret this)], Throw e)
    | OutOfFuel => ([Base32Decode (secret this)], OutOfFuel)
    end.
Proof.
  destruct (Base32.decode (secret this)) as [key| e |] eqn:Hk.
  - destruct ((0 <=? counter) && (counter <? 2 ^ 64)) eqn:Hc.
    + destruct (createHmac (algorithm this)) as [h|] eqn:Hh.
      * apply generate_returns; [assumption | assumption | lia].
      * apply generate_unknown_algorithm; [assumption | lia | assumption].
    + apply (generate_out_of_range createHmac this key); [assumption | lia].
  - unfold _generateTOTP. rewrite Hk. reflexivity.
  - unfold _generateTOTP. rewrite Hk. reflexivity.
Qed.

Lemma ten_digits_hold (x : Z) (len : nat) :
  0 <= x < 2 ^ 31 -> (10 <= len)%nat -> rem x (10 ^ Z.of_nat len) = x.
Proof.
  intros Hx Hl. unfold rem.
  assert (10 ^ 10 <= 10 ^ Z.of_nat len) by (apply Z.pow_le_mono_r; lia).
  change (10 ^ 10) with 10000000000 in *. change (2 ^ 31) with 2147483648 in *.
  rewrite Z.rem_mod_nonneg by lia. apply Z.mod_small. lia.
Qed.

(** X5. A code that [_generateTOTP] returns is below 2^31 (the top bit of
    the four digest bytes is masked) as well as below 10^otpLength. *)
Theorem code_below_two_to_31 (this : TOTP) (counter code : Z) :
  result (_generateTOTP createHmac this counter) = Return code ->
  0 <= code < 2 ^ 31 /\ code < 10 ^ Z.of_nat (otpLength this).
Proof.
  rewrite derivation_form.
  destruct (Base32.decode (secret this)) as [key| e |]; try discriminate.
  destruct ((0 <=? counter) && (counter <? 2 ^ 64)); [|discriminate].
  destruct (createHmac (algorithm this)) as [h|]; [|discriminate].
  rewrite result_pair. intros E. injection E as <-.
  destruct (code_range (h key (Rfc4226.counterBytes counter)) (otpLength this)) as [Em Er].
  pose proof (binaryCode_range (h key (Rfc4226.counterBytes counter))) as Hb.
  assert (P : 0 < 10 ^ Z.of_nat (otpLength this)) by (apply Z.pow_pos_nonneg; lia).
  split; [|apply Er]. split; [apply Er|].
  rewrite Em. eapply Z.le_lt_trans; [apply Z.mod_le; lia | apply Hb].
Qed.

(** X6. Ten digits are the most: with [otpLength] 10 or more the modulus
    exceeds every 31-bit value, so every such length gives the same calls
    and the same outcome, the truncated value itself when a code is
    returned. *)
Theorem lengths_from_ten_agree (this : TOTP) (counter : Z) (len' : nat) :
  (10 <= otpLength this)%nat -> (10 <= len')%nat ->
  _generateTOTP createHmac
    {| secret := secret this; window := window this; interval := interval this;
       otpLength := len'; algorithm := algorithm this |} counter =
  _generateTOTP createHmac this counter.
Proof.
  intros H1 H2. rewrite !derivation_form.
  cbn [secret algorithm otpLength].
  destruct (Base32.decode (secret this)) as [key| e |]; try reflexivity.
  destruct ((0 <=? counter) && (counter <? 2 ^ 64)); [|reflexivity].
  destruct (createHmac (algorithm this)) as [h|]; [|reflexivity].
  rewrite !ten_digits_hold by (assumption || apply binaryCode_range). reflexivity.
Qed.

Lemma counter_of_time (now i k : Z) :
  0 < i -> 1000 * i * k <= now < 1000 * i * (k + 1) -> now / (1000 * i) = k.
Proof.
  intros Hi H. symmetry. apply Z.div_unique with (r := now - 1000 * i * k); lia.
Qed.

(** X7. [generateTOTP] is constant on an interval: two clock readings in the
    same interval [1000 * interval * k, 1000 * interval * (k + 1)) give the
    same calls and the same outcome, that of [_generateTOTP(k)]. *)
Theorem generate_constant_within_interval (this : TOTP) (k now1 now2 : Z) :
  0 < interval this ->
  1000 * interval this * k <= now1 < 1000 * interval this * (k + 1) ->
  1000 * interval this * k <= now2 < 1000 * interval this * (k + 1) ->
  generateTOTP createHmac this now1 = generateTOTP createHmac this now2 /\
  result (generateTOTP createHmac this now1) = result (_generateTOTP createHmac this k).
Proof.
  intros Hi H1 H2. rewrite !(generate_at createHmac) by lia.
  rewrite (counter_of_time now1 _ k Hi H1), (counter_of_time now2 _ k Hi H2).
  split; reflexivity.
Qed.

Lemma upto_first_none {A} (p : A -> bool) (l : list A) :
  (forall x, In x l -> p x = false) -> upto_first p l = l /\ existsb p l = false.
Proof.
  induction l as [|x l IH]; intros H; [split; reflexivity|].
  cbn [upto_first existsb]. rewrite (H x (or_introl eq_refl)).
  destruct IH as [E1 E2]; [intros y Hy; apply H; right; exact Hy|].
  rewrite E1, E2. split; reflexivity.
Qed.

(** X8. Under the conditions in which [verifyTOTP] scans its window, an input
    whose integer value is 10^otpLength or more is rejected, after the
    derivation of every counter of the window. *)
Theorem verify_rejects_longer_values (text : jsstring) (w i : Z) (len : nat) (alg : string)
    (this : TOTP) (h : list byte -> list byte -> list byte) (now : Z) (s : jsstring) :
  result (TOTP_new (JString text) w i len alg) = Return this ->
  createHmac alg = Some h ->
  0 < i -> 0 <= w ->
  w <= now / (1000 * i) -> now / (1000 * i) + w < 2 ^ 64 ->
  digits_shape s ->
  10 ^ Z.of_nat len <= parseInt10 s ->
  exists key,
    verifyTOTP createHmac this now (JString s) =
      (DateNow :: flat_map (hotp_calls this key) (window_of (now / (1000 * i)) w),
       Return rejected).
Proof.
  intros Hnew Hh Hi Hw Hlo Hhi Hs Hbig.
  destruct (verify_window_scan createHmac text w i len alg this h now Hnew Hh Hi Hw Hlo Hhi)
    as (key & code & _ & R & _ & V).
  exists key. rewrite (V s Hs).
  destruct (upto_first_none (fun k => parseInt10 s =? code k) (window_of (now / (1000 * i)) w))
    as [E1 E2].
  - intros k _. specialize (R k). lia.
  - rewrite E1, E2. reflexivity.
Qed.

Lemma verdicts_differ : verified <> rejected.
Proof. discriminate. Qed.

(** X9. A wider window accepts what a narrower one accepts: for the same
    secret, configuration and clock, an input verified with window [w] is
    verified with every window [w' >= w] whose counters are unsigned 64-bit
    integers. *)
Theorem wider_window_accepts_more (text : jsstring) (w w' i : Z) (len : nat) (alg : string)
    (this this' : TOTP) (h : list byte -> list byte -> list byte) (now : Z) (s : jsstring) :
  result (TOTP_new (JString text) w i len alg) = Return this ->
  result (TOTP_new (JString text) w' i len alg) = Return this' ->
  createHmac alg = Some h ->
  0 < i -> 0 <= w <= w' ->
  w' <= now / (1000 * i) -> now / (1000 * i) + w' < 2 ^ 64 ->
  digits_shape s ->
  result (verifyTOTP createHmac this now (JString s)) = Return verified ->
  result (verifyTOTP createHmac this' now (JString s)) = Return verified.
Proof.
  intros Hnew Hnew' Hh Hi Hw Hlo Hhi Hs Hv.
  destruct (verify_window_scan createHmac text w i len alg this h now Hnew Hh Hi)
    as (key & code & _ & _ & G & V); try lia.
  destruct (verify_window_scan createHmac text w' i len alg this' h now Hnew' Hh Hi)
    as (key' & code' & _ & _ & G' & V'); try lia.
  rewrite (V s Hs), result_pair in Hv. rewrite (V' s Hs), result_pair.
  destruct (existsb (fun k => parseInt10 s =? code k) (window_of (now / (1000 * i)) w)) eqn:E;
    [|injection Hv as Hv; discriminate Hv].
  apply existsb_exists in E as (k & Hin & Hk).
  apply window_of_In in Hin.
  replace (existsb _ _) with true; [reflexivity|].
  symmetry. apply existsb_exists. exists k. split.
  - unfold window_of. apply counters_from_has. rewrite Z2Nat.id by lia. lia.
  - assert (Ec : code' k = code k).
    { pose proof (G k Hin) as A. pose proof (G' k ltac:(lia)) as B.
      apply constructed in Hnew as [_ ->]. apply constructed in Hnew' as [_ ->].
      rewrite derivation_form in A, B. cbn [secret algorithm otpLength] in A, B.
      destruct (Base32.decode (JString text)); try discriminate.
      destruct ((0 <=? k) && (k <? 2 ^ 64)); [|discriminate].
      rewrite Hh in A, B. congruence. }
    rewrite Ec. exact Hk.
Qed.

End Codes.

(** Counter 57683525 of the default engine: the code 854198. *)
Lemma code_below_two_to_31_witness :
  let this := {| secret := JString (lit "JBSWY3DPEHPK3PXP"); window := 0; interval := 30;
                 otpLength := 6; algorithm := "sha1" |} in
  result (_generateTOTP Sha1.createHmac this 57683525) = Return 854198 /\
  0 <= 854198 < 2 ^ 31 /\ 854198 < 10 ^ Z.of_nat (otpLength this).
Proof.
  intros this.
  assert (H : result (_generateTOTP Sha1.createHmac this 57683525) = Return 854198)
    by (vm_compute; reflexivity).
  split; [exact H|].
  exact (code_below_two_to_31 Sha1.createHmac this 57683525 854198 H).
Defined.

(** Lengths 10 and 12. *)
Lemma lengths_from_ten_agree_witness :
  let this := {| secret := JString (lit "JBSWY3DPEHPK3PXP"); window := 0; interval := 30;
                 otpLength := 10; algorithm := "sha1" |} in
  _generateTOTP Sha1.createHmac
    {| secret := secret this; window := window this; interval := interval this;
       otpLength := 12; algorithm := algorithm this |} 57683525 =
  _generateTOTP Sha1.createHmac this 57683525.
Proof.
  intros this.
  apply (lengths_from_ten_agree Sha1.createHmac this 57683525 12%nat).
  - apply le_n.
  - cbn. lia.
Defined.

(** The first and the last millisecond of the interval of counter 57683525. *)
Lemma generate_constant_within_interval_witness :
  let this := {| secret := JString (lit "JBSWY3DPEHPK3PXP"); window := 0; interval := 30;
                 otpLength := 6; algorithm := "sha1" |} in
  generateTOTP Sha1.createHmac this 1730505750000 =
    generateTOTP Sha1.createHmac this 1730505779999 /\
  result (generateTOTP Sha1.createHmac this 1730505750000) =
    result (_generateTOTP Sha1.createHmac this 57683525).
Proof.
  intros this.
  apply (generate_constant_within_interval Sha1.createHmac this 57683525
           1730505750000 1730505779999).
  - reflexivity.
  - vm_compute. split; [discriminate | reflexivity].
  - vm_compute. split; [discriminate | reflexivity].
Defined.

(** Seven digits against six-digit codes. *)
Lemma verify_rejects_longer_values_witness :
  let text := lit "JBSWY3DPEHPK3PXP" in
  let this := {| secret := JString text; window := 1; interval := 30; otpLength := 6;
                 algorithm := "sha1" |} in
  let now := 1730505750000 in
  exists key,
    verifyTOTP Sha1.createHmac this now (JString (lit "1854198")) =
      (DateNow :: flat_map (hotp_calls this key) (window_of (now / (1000 * 30)) 1),
       Return rejected).
Proof.
  intros text this now.
  apply (verify_rejects_longer_values Sha1.createHmac text 1 30 6%nat "sha1"%string this
           Sha1.hmac now (lit "1854198")).
  - reflexivity.
  - reflexivity.
  - lia.
  - lia.
  - vm_compute. discriminate.
  - vm_compute. reflexivity.
  - apply otp_re_shape. reflexivity.
  - vm_compute. discriminate.
Defined.

(** Windows 0 and 1 at counter 57683525. *)
Lemma wider_window_accepts_more_witness :
  let text := lit "JBSWY3DPEHPK3PXP" in
  let this' := {| secret := JString text; window := 1; interval := 30; otpLength := 6;
                  algorithm := "sha1" |} in
  result (verifyTOTP Sha1.createHmac this' 1730505750000 (JString (lit "854198"))) =
    Return verified.
Proof.
  intros text this'.
  apply (wider_window_accepts_more Sha1.createHmac text 0 1 30 6%nat "sha1"%string
           {| secret := JString text; window := 0; interval := 30; otpLength := 6;
              algorithm := "sha1" |} this' Sha1.hmac 1730505750000 (lit "854198")).
  - reflexivity.
  - reflexivity.
  - reflexivity.
  - lia.
  - lia.
  - vm_compute. discriminate.
  - vm_compute. reflexivity.
  - apply otp_re_shape. reflexivity.
  - vm_compute. reflexivity.
Defined.

(** ** The [decode] loop, by bits *)

Module DecodeFacts.
Import Base32 Rfc4648.

Lemma decode_step_digit (encodedByte : Z) (st : dec_state) :
  decode_step encodedByte st = decode_digit (byteTableAt encodedByte) st.
Proof.
  unfold decode_step, decode_digit.
  destruct (d_shiftIndex st <=? 3); [destruct (rem (d_shiftIndex st + 5) 8 =? 0)|]; reflexivity.
Qed.

Ltac bools := repeat match goal with b : bool |- _ => destruct b end.

(** One character more: five bits join the pending ones, and a byte is
    written once there are eight. *)
Lemma decode_digit_bits (p : list bool) (q4 q3 q2 q1 q0 : bool) (pos : nat) (buf : list byte) :
  (length p < 8)%nat ->
  decode_digit (value [q4; q3; q2; q1; q0]) (pending p pos buf) =
    if (length p + 5 <? 8)%nat then pending (p ++ [q4; q3; q2; q1; q0]) pos buf
    else pending (skipn 8 (p ++ [q4; q3; q2; q1; q0])) (S pos)
           (buf_set buf pos (z2b (value (firstn 8 (p ++ [q4; q3; q2; q1; q0]))))).
Proof.
  intros Hp.
  destruct p as [|a0 [|a1 [|a2 [|a3 [|a4 [|a5 [|a6 [|a7 p]]]]]]]];
    [| | | | | | | | cbn [length] in Hp; lia]; clear Hp;
    bools; vm_compute; reflexivity.
Qed.

Lemma bytes_of_bits_short (l : list bool) : (length l < 8)%nat -> bytes_of_bits l = [].
Proof.
  destruct l as [|a0 [|a1 [|a2 [|a3 [|a4 [|a5 [|a6 [|a7 l]]]]]]]]; try reflexivity.
  cbn [length]. lia.
Qed.

Lemma bytes_of_bits_app8 (l rest : list bool) :
  (8 <= length l)%nat ->
  bytes_of_bits (l ++ rest) = z2b (value (firstn 8 l)) :: bytes_of_bits (skipn 8 l ++ rest).
Proof.
  destruct l as [|a0 [|a1 [|a2 [|a3 [|a4 [|a5 [|a6 [|a7 l]]]]]]]]; cbn [length]; try lia.
  reflexivity.
Qed.

Lemma range_forall (p : Z -> bool) (lo : Z) (n : nat) :
  forallb p (map (fun k => lo + Z.of_nat k) (seq 0 n)) = true ->
  forall c, lo <= c < lo + Z.of_nat n -> p c = true.
Proof.
  intros H c Hc. rewrite forallb_forall in H. apply H.
  apply in_map_iff. exists (Z.to_nat (c - lo)). split; [lia|].
  apply in_seq. lia.
Qed.

Lemma value_bits5 (d : Z) : 0 <= d < 32 -> value (bits5 d) = d.
Proof.
  intros Hd. apply Z.eqb_eq.
  apply (range_forall (fun d => value (bits5 d) =? d) 0 32); [vm_compute; reflexivity | lia].
Qed.

Lemma char_value_range (c : Z) :
  65 <= c <= 90 \/ 50 <= c <= 55 -> 0 <= char_value c < 32.
Proof. unfold char_value. intros [Hc | Hc]; destruct (Z.ltb_spec c 65); lia. Qed.

(** [byteTable] holds the value of every character of the alphabet. *)
Lemma byteTable_value (c : Z) :
  65 <= c <= 90 \/ 50 <= c <= 55 -> byteTableAt (c - 48) = char_value c.
Proof.
  intros [Hc | Hc]; apply Z.eqb_eq.
  - apply (range_forall (fun c => byteTableAt (c - 48) =? char_value c) 65 26);
      [vm_compute; reflexivity | lia].
  - apply (range_forall (fun c => byteTableAt (c - 48) =? char_value c) 50 6);
      [vm_compute; reflexivity | lia].
Qed.

Lemma char_value_symbol (d : Z) : 0 <= d < 32 -> char_value (symbol d) = d.
Proof.
  intros Hd. apply Z.eqb_eq.
  apply (range_forall (fun d => char_value (symbol d) =? d) 0 32); [vm_compute; reflexivity | lia].
Qed.

Lemma bits5_explicit (d : Z) : exists q4 q3 q2 q1 q0, bits5 d = [q4; q3; q2; q1; q0].
Proof. unfold bits5. cbn [map]. do 5 eexists. reflexivity. Qed.

Lemma bits5_length (d : Z) : length (bits5 d) = 5%nat.
Proof. reflexivity. Qed.

(** The loop on the data characters: every character adds its five bits,
    and the bytes written are the whole bytes of the bits so far. *)
Lemma decode_loop_bits (data : jsstring) :
  Forall (fun c => 65 <= c <= 90 \/ 50 <= c <= 55) data ->
  forall (rest : list byte) (p : list bool) (out tail : list byte),
  (length p < 8)%nat ->
  (rest = [] \/ exists rest', rest = x3d :: rest') ->
  (length p + 5 * length data <= 8 * length tail)%nat ->
  exists st,
    decode_loop (map z2b data ++ rest) (pending p (length out) (out ++ tail)) = Return st /\
    firstn (d_plainPos st) (d_decoded st) =
      out ++ bytes_of_bits (p ++ flat_map (fun c => bits5 (char_value c)) data).
Proof.
  induction 1 as [|c data Hc Hdata IH]; intros rest p out tail Hp Hrest Hroom.
  - exists (pending p (length out) (out ++ tail)). split.
    + cbn [map app]. destruct Hrest as [-> | [rest' ->]]; reflexivity.
    + cbn [pending d_plainPos d_decoded flat_map].
      rewrite app_nil_r, bytes_of_bits_short, app_nil_r by assumption.
      rewrite firstn_app, Nat.sub_diag, firstn_all. cbn [firstn]. apply app_nil_r.
  - cbn [map app decode_loop flat_map length] in *.
    rewrite b2z_z2b_small by lia.
    replace (c =? 61) with false by (symmetry; apply Z.eqb_neq; lia).
    replace (c - 48 <? Z.of_nat (length byteTable)) with true
      by (symmetry; apply Z.ltb_lt; cbn [length byteTable]; lia).
    rewrite decode_step_digit.
    rewrite (byteTable_value c Hc).
    pose proof (char_value_range c Hc) as Hv.
    replace (decode_digit (char_value c))
      with (decode_digit (value (bits5 (char_value c))))
      by (rewrite (value_bits5 (char_value c) Hv); reflexivity).
    destruct (bits5_explicit (char_value c)) as (q4 & q3 & q2 & q1 & q0 & Hq).
    rewrite Hq, decode_digit_bits by assumption.
    destruct (length p + 5 <? 8)%nat eqn:Hlt.
    + apply Nat.ltb_lt in Hlt.
      destruct (IH rest (p ++ [q4; q3; q2; q1; q0]) out tail) as (st & Hst & Hout).
      * rewrite length_app. cbn [length]. lia.
      * assumption.
      * rewrite length_app. cbn [length]. lia.
      * exists st. split; [exact Hst|]. rewrite Hout, <- app_assoc. reflexivity.
    + apply Nat.ltb_ge in Hlt.
      destruct tail as [|x tail]; [cbn [length] in Hroom; lia|].
      rewrite EncodeLoop.buf_set_middle.
      assert (Hlen : length (p ++ [q4; q3; q2; q1; q0]) = (length p + 5)%nat)
        by (rewrite length_app; reflexivity).
      destruct (IH rest (skipn 8 (p ++ [q4; q3; q2; q1; q0]))
                  (out ++ [z2b (value (firstn 8 (p ++ [q4; q3; q2; q1; q0])))]) tail)
        as (st & Hst & Hout).
      * rewrite length_skipn, Hlen. lia.
      * assumption.
      * rewrite length_skipn, Hlen. cbn [length] in Hroom. lia.
      * exists st. rewrite length_app, Nat.add_1_r, <- app_assoc in Hst.
        split; [exact Hst|]. rewrite Hout, <- (app_assoc out).
        rewrite (app_assoc p), (bytes_of_bits_app8 (p ++ [q4; q3; q2; q1; q0]))
          by (rewrite Hlen; lia).
        reflexivity.
Qed.

Lemma bytes_of_bits_length (n : nat) :
  forall l, (length l <= n)%nat -> length (bytes_of_bits l) = (length l / 8)%nat.
Proof.
  induction n as [|n IH]; intros l Hl.
  - destruct l; [reflexivity | cbn [length] in Hl; lia].
  - destruct l as [|a0 [|a1 [|a2 [|a3 [|a4 [|a5 [|a6 [|a7 l]]]]]]]]; try reflexivity.
    cbn [bytes_of_bits length] in *. rewrite IH by lia.
    change (S (S (S (S (S (S (S (S (length l))))))))) with (8 + length l)%nat.
    replace (8 + length l)%nat with (length l + 1 * 8)%nat by lia.
    rewrite Nat.div_add by lia. lia.
Qed.

Lemma flat_map_bits5_length (f : Z -> Z) (data : jsstring) :
  length (flat_map (fun c => bits5 (f c)) data) = (5 * length data)%nat.
Proof.
  induction data as [|c data IH]; [reflexivity|].
  cbn [flat_map length]. rewrite length_app, IH, bits5_length. lia.
Qed.

Lemma secret_key_length (data : jsstring) :
  length (secret_key data) = (5 * length data / 8)%nat.
Proof.
  unfold secret_key.
  rewrite (bytes_of_bits_length _ _ (Nat.le_refl _)), flat_map_bits5_length. reflexivity.
Qed.

(** [decode] on the bytes of data characters followed by anything that
    starts with [=]. *)
Lemma decode_bytes_key (data : jsstring) (rest : list byte) :
  Forall (fun c => 65 <= c <= 90 \/ 50 <= c <= 55) data ->
  (rest = [] \/ exists rest', rest = x3d :: rest') ->
  decode_bytes (map z2b data ++ rest) = Return (secret_key data).
Proof.
  intros Hdata Hrest. unfold decode_bytes.
  set (room := Z.to_nat ((Z.of_nat (length (map z2b data ++ rest)) * 5 + 7) / 8)).
  destruct (decode_loop_bits data Hdata rest [] [] (repeat x00 room)) as (st & Hst & Hout).
  - cbn [length]. lia.
  - assumption.
  - rewrite repeat_length. cbn [length]. subst room.
    rewrite length_app, length_map.
    set (n := (length data + length rest)%nat).
    pose proof (Z.div_mod (Z.of_nat n * 5 + 7) 8 ltac:(lia)) as Hd.
    pose proof (Z.mod_pos_bound (Z.of_nat n * 5 + 7) 8 ltac:(lia)) as Hm.
    assert (0 <= (Z.of_nat n * 5 + 7) / 8) by (apply Z.div_pos; lia).
    subst n. lia.
  - change (pending [] (length []) ([] ++ repeat x00 room)) with
      {| d_shiftIndex := 0; d_plainChar := 0; d_plainPos := 0; d_decoded := repeat x00 room |} in Hst.
    rewrite Hst, Hout. reflexivity.
Qed.


(** *** What [decode] makes of what [encode] returns *)

Lemma bits5_value (a b c d e : bool) : bits5 (value [a; b; c; d; e]) = [a; b; c; d; e].
Proof. destruct a, b, c, d, e; reflexivity. Qed.

Lemma groups_bits (n : nat) :
  forall l, (length l <= n)%nat ->
  exists k, (k <= 4)%nat /\ flat_map bits5 (groups l) = l ++ repeat false k.
Proof.
  induction n as [|n IH]; intros l Hl.
  - destruct l; [|cbn [length] in Hl; lia]. exists 0%nat. split; [lia | reflexivity].
  - destruct l as [|a [|b [|c [|d [|e l]]]]].
    + exists 0%nat. split; [lia | reflexivity].
    + exists 4%nat. split; [lia|]. cbn [groups flat_map]. rewrite bits5_value. reflexivity.
    + exists 3%nat. split; [lia|]. cbn [groups flat_map]. rewrite bits5_value. reflexivity.
    + exists 2%nat. split; [lia|]. cbn [groups flat_map]. rewrite bits5_value. reflexivity.
    + exists 1%nat. split; [lia|]. cbn [groups flat_map]. rewrite bits5_value. reflexivity.
    + destruct (IH l) as (k & Hk & E); [cbn [length] in Hl; lia|].
      exists k. split; [exact Hk|].
      change (groups (a :: b :: c :: d :: e :: l)) with (value [a; b; c; d; e] :: groups l).
      cbn [flat_map]. rewrite bits5_value, E. reflexivity.
Qed.

Lemma flat_map_symbol (ds : list Z) :
  Forall (fun d => 0 <= d < 32) ds ->
  flat_map (fun c => bits5 (char_value c)) (map symbol ds) = flat_map bits5 ds.
Proof.
  induction 1 as [|d ds Hd Hds IH]; [reflexivity|].
  cbn [map flat_map]. rewrite char_value_symbol, IH by assumption. reflexivity.
Qed.

Lemma value_bits (b : byte) : value (bits b) = b2z b.
Proof.
  apply Z.eqb_eq.
  apply (EncodeFacts.byte_forall (fun b => value (bits b) =? b2z b)).
  vm_compute. reflexivity.
Qed.

Lemma bytes_of_bits_bytes (plain : list byte) (zs : list bool) :
  (length zs < 8)%nat -> bytes_of_bits (flat_map bits plain ++ zs) = plain.
Proof.
  intros Hzs. induction plain as [|b plain IH].
  - apply bytes_of_bits_short. exact Hzs.
  - cbn [flat_map]. rewrite <- app_assoc.
    destruct (EncodeFacts.bits_explicit b) as (t7 & t6 & t5 & t4 & t3 & t2 & t1 & t0 & E).
    rewrite E. cbn [app bytes_of_bits]. rewrite <- E, value_bits, z2b_b2z, IH. reflexivity.
Qed.

Lemma secret_key_encode (plain : list byte) :
  secret_key (map symbol (groups (flat_map bits plain))) = plain.
Proof.
  unfold secret_key.
  rewrite flat_map_symbol by (apply (groups_range _ _ (le_n _))).
  destruct (groups_bits _ _ (le_n (length (flat_map bits plain)))) as (k & Hk & E).
  rewrite E. apply bytes_of_bits_bytes. rewrite repeat_length. lia.
Qed.

Lemma padding_bytes (n : nat) :
  map z2b (repeat 61 n) = [] \/ exists rest', map z2b (repeat 61 n) = x3d :: rest'.
Proof.
  destruct n as [|n]; [left; reflexivity|].
  right. exists (map z2b (repeat 61 n)). reflexivity.
Qed.

(** [decode] gives back the bytes that [encode] was given. *)
Lemma decode_encode (plain : list byte) :
  decode_bytes (map z2b (Rfc4648.encode plain)) = Return plain.
Proof.
  unfold Rfc4648.encode. rewrite map_app, decode_bytes_key.
  - rewrite secret_key_encode. reflexivity.
  - apply Forall_map. eapply Forall_impl; [|apply (groups_range _ _ (le_n _))].
    intros d Hd. apply symbol_class. exact Hd.
  - apply padding_bytes.
Qed.

End DecodeFacts.

(** *** The text that [generateSecret] encodes *)

Lemma utf8_encode_ascii_app (s1 s2 : jsstring) :
  Forall (fun c => 0 <= c < 128) s1 -> Utf8.encode (s1 ++ s2) = map z2b s1 ++ Utf8.encode s2.
Proof.
  induction 1 as [|c s Hc Hs IH]; [reflexivity|].
  cbn [Utf8.encode map app]. unfold Utf8.is_high_surrogate, Utf8.is_low_surrogate.
  replace (55296 <=? c) with false by lia. replace (56320 <=? c) with false by lia.
  cbn [andb]. unfold Utf8.encode_point. replace (c <? 128) with true by lia.
  rewrite IH. reflexivity.
Qed.

Lemma sextet_ascii (n : Z) : 0 <= Base64.sextet n < 128.
Proof.
  unfold Base64.sextet.
  assert (Hall : Forall (fun c => 0 <= c < 128) Base64.alphabet).
  { apply Forall_forall. intros c Hc.
    assert (H : forallb (fun c => (0 <=? c) && (c <? 128))%bool Base64.alphabet = true)
      by (vm_compute; reflexivity).
    rewrite forallb_forall in H. specialize (H c Hc). apply andb_true_iff in H. lia. }
  rewrite Forall_forall in Hall. apply Hall, nth_In.
  change 63 with (Z.ones 6). rewrite Z.land_ones by lia.
  pose proof (Z.mod_pos_bound n (2 ^ 6) ltac:(lia)) as Hm.
  change (length Base64.alphabet) with 64%nat. lia.
Qed.

Lemma base64_ascii (n : nat) :
  forall bs, (length bs <= n)%nat -> Forall (fun c => 0 <= c < 128) (Base64.toString bs).
Proof.
  induction n as [|n IH]; intros bs Hbs.
  - destruct bs; [constructor | cbn [length] in Hbs; lia].
  - destruct bs as [|a [|b [|c rest]]]; cbn [Base64.toString].
    + constructor.
    + repeat (constructor; [first [apply sextet_ascii | lia]|]). constructor.
    + repeat (constructor; [first [apply sextet_ascii | lia]|]). constructor.
    + repeat (constructor; [apply sextet_ascii|]). apply IH. cbn [length] in Hbs. lia.
Qed.

(** Ten bytes give sixteen characters, the last two of them [=]. *)
Lemma base64_ten (random : list byte) :
  length random = 10%nat ->
  exists body, Base64.toString random = body ++ [61; 61] /\ length body = 14%nat.
Proof.
  intros Hlen.
  destruct random as [|b0 [|b1 [|b2 [|b3 [|b4 [|b5 [|b6 [|b7 [|b8 [|b9 [|b10 rest]]]]]]]]]]];
    try discriminate Hlen.
  cbn [Base64.toString]. eexists (_ :: _ :: _ :: _ :: _ :: _ :: _ :: _ :: _ :: _ ::
                                   _ :: _ :: _ :: _ :: []).
  split; reflexivity.
Qed.

Lemma encode_length (plain : list byte) :
  length (Rfc4648.encode plain) = (8 * ((length plain + 4) / 5))%nat.
Proof.
  unfold Rfc4648.encode. rewrite length_app, repeat_length, length_map.
  rewrite (EncodeLoop.groups_length _ _ (le_n _)), EncodeLoop.bits_length.
  pose proof (EncodeLoop.sizes (length plain)) as [Hle Hpad]. cbv zeta in Hle, Hpad.
  rewrite <- Hpad.
  set (total := ((8 * length plain + 4) / 5)%nat) in *.
  assert (Hroom : ((if (length plain mod 5 =? 0)%nat then length plain / 5
                   else S (length plain / 5)) = (length plain + 4) / 5)%nat).
  { pose proof (Nat.div_mod_eq (length plain) 5) as Hd.
    pose proof (Nat.mod_upper_bound (length plain) 5 ltac:(lia)) as Hm.
    destruct (Nat.eqb_spec (length plain mod 5) 0) as [E|E].
    - apply (Nat.div_unique _ 5 _ 4); lia.
    - apply (Nat.div_unique _ 5 _ (length plain mod 5 - 1)); lia. }
  rewrite Hroom in *. lia.
Qed.

Section Secrets.
Variable createHmac : string -> option (list byte -> list byte -> list byte).

(** X10. The key of a secret text. For a text of data characters [A-Z2-7]
    followed by [=] signs, [_generateTOTP] keys the HMAC with the whole bytes
    of the five-bit values of the data characters, put end to end: the
    padding counts for nothing, the bits left over after the last whole byte
    are dropped, and the key has floor(5 * n / 8) bytes for [n] data
    characters. *)
Theorem derivation_key_of_secret_text (data pad : jsstring) (w i : Z) (len : nat)
    (alg : string) :
  data <> [] ->
  Forall (fun c => 65 <= c <= 90 \/ 50 <= c <= 55) data ->
  Forall (fun c => c = 61) pad ->
  exists this,
    result (TOTP_new (JString (data ++ pad)) w i len alg) = Return this /\
    Base32.decode (secret this) = Return (secret_key data) /\
    length (secret_key data) = (5 * length data / 8)%nat /\
    forall h counter,
      createHmac alg = Some h -> 0 <= counter < 2 ^ 64 ->
      _generateTOTP createHmac this counter =
        (hotp_calls this (secret_key data) counter,
         Return (rem (binaryCode (h (secret_key data) (Rfc4226.counterBytes counter)))
                     (10 ^ Z.of_nat len))).
Proof.
  intros Hne Hdata Hpad.
  assert (Hshape : secret_shape (data ++ pad)) by (exists data, pad; auto).
  assert (Hdec : Base32.decode (JString (data ++ pad)) = Return (secret_key data)).
  { cbn [Base32.decode]. rewrite utf8_encode_ascii by (apply secret_shape_ascii, Hshape).
    rewrite map_app. apply DecodeFacts.decode_bytes_key; [exact Hdata|].
    destruct pad as [|c pad]; [left; reflexivity|].
    right. exists (map z2b pad). inversion Hpad as [|? ? Hc ?]; subst.
    cbn [map]. f_equal. }
  exists {| secret := JString (data ++ pad); window := w; interval := i;
            otpLength := len; algorithm := alg |}.
  split; [|split; [exact Hdec|split; [apply DecodeFacts.secret_key_length|]]].
  - rewrite constructor_cases.
    replace (_isValidSecret (JString (data ++ pad))) with true; [reflexivity|].
    symmetry. apply secret_re_shape, Hshape.
  - intros h counter Hh Hc.
    exact (generate_returns createHmac
             {| secret := JString (data ++ pad); window := w; interval := i;
                otpLength := len; algorithm := alg |} h (secret_key data) counter Hdec Hh Hc).
Qed.

(** X11. From [generateSecret] to the key. The [Buffer] that
    [generateSecret] returns is accepted by the constructor, and the engine
    keys the HMAC with the bytes that [generateSecret] encoded: the sixteen
    characters of the base64 text of the ten random bytes, which end in
    [==], followed by the UTF-8 bytes of the label. *)
Theorem generated_secret_key (random : list byte) (input : jsval) (w i : Z) (len : nat)
    (alg : string) :
  length random = 10%nat ->
  exists buf this body,
    result (generateSecret random input) = Return (JBuffer buf) /\
    result (TOTP_new (JBuffer buf) w i len alg) = Return this /\
    Base64.toString random = body ++ [61; 61] /\ length body = 14%nat /\
    Base32.decode (secret this) =
      Return (map z2b (Base64.toString random) ++ Utf8.encode (label_text input)) /\
    forall h counter,
      createHmac alg = Some h -> 0 <= counter < 2 ^ 64 ->
      _generateTOTP createHmac this counter =
        (hotp_calls this (map z2b (Base64.toString random) ++ Utf8.encode (label_text input))
           counter,
         Return (rem (binaryCode
                        (h (map z2b (Base64.toString random) ++ Utf8.encode (label_text input))
                           (Rfc4226.counterBytes counter)))
                     (10 ^ Z.of_nat len))).
Proof.
  intros Hlen. rewrite generateSecret_cases.
  destruct (base64_ten random Hlen) as (body & Hbody & Hblen).
  set (bytes := Utf8.encode (Base64.toString random ++ label_text input)).
  assert (Hbytes : bytes = map z2b (Base64.toString random) ++ Utf8.encode (label_text input))
    by (apply utf8_encode_ascii_app, (base64_ascii _ _ (le_n _))).
  assert (Hb : bytes <> []).
  { apply utf8_encode_nonempty, app_nonempty, base64_nonempty.
    destruct random; [discriminate Hlen | discriminate]. }
  pose proof (encode_shape bytes Hb) as Hs.
  assert (Hv : _isValidSecret (JBuffer (map z2b (Rfc4648.encode bytes))) = true).
  { unfold _isValidSecret. cbn [ToString].
    rewrite utf8_decode_text by (apply secret_shape_ascii, Hs). apply secret_re_shape, Hs. }
  assert (Hdec : Base32.decode (JBuffer (map z2b (Rfc4648.encode bytes))) =
                 Return (map z2b (Base64.toString random) ++ Utf8.encode (label_text input))).
  { cbn [Base32.decode]. rewrite DecodeFacts.decode_encode, Hbytes. reflexivity. }
  exists (map z2b (Rfc4648.encode bytes)),
         {| secret := JBuffer (map z2b (Rfc4648.encode bytes)); window := w; interval := i;
            otpLength := len; algorithm := alg |}, body.
  split; [reflexivity|]. split; [rewrite constructor_cases, Hv; reflexivity|].
  split; [exact Hbody|]. split; [exact Hblen|]. split; [exact Hdec|].
  intros h counter Hh Hc.
  exact (generate_returns createHmac
           {| secret := JBuffer (map z2b (Rfc4648.encode bytes)); window := w; interval := i;
              otpLength := len; algorithm := alg |} h _ counter Hdec Hh Hc).
Qed.

End Secrets.

(** Sixteen data characters and six [=]: ten bytes. *)
Lemma derivation_key_of_secret_text_witness :
  let data := lit "JBSWY3DPEHPK3PXP" in
  let pad := lit "======" in
  exists this,
    result (TOTP_new (JString (data ++ pad)) 0 30 6 "sha1") = Return this /\
    Base32.decode (secret this) = Return (secret_key data) /\
    length (secret_key data) = (5 * length data / 8)%nat /\
    forall h counter,
      Sha1.createHmac "sha1" = Some h -> 0 <= counter < 2 ^ 64 ->
      _generateTOTP Sha1.createHmac this counter =
        (hotp_calls this (secret_key data) counter,
         Return (rem (binaryCode (h (secret_key data) (Rfc4226.counterBytes counter)))
                     (10 ^ Z.of_nat 6))).
Proof.
  intros data pad.
  apply (derivation_key_of_secret_text Sha1.createHmac data pad 0 30 6%nat "sha1"%string).
  - discriminate.
  - unfold data. cbn. repeat (constructor; [lia|]). constructor.
  - unfold pad. cbn. repeat (constructor; [reflexivity|]). constructor.
Defined.

(** Ten bytes and the label ["TestSite"]. *)
Lemma generated_secret_key_witness :
  let random := [x8f; x03; xa1; x5c; xee; x10; x77; xd2; x49; xb6] in
  let input := JString (lit "TestSite") in
  exists buf this body,
    result (generateSecret random input) = Return (JBuffer buf) /\
    result (TOTP_new (JBuffer buf) 0 30 6 "sha1") = Return this /\
    Base64.toString random = body ++ [61; 61] /\ length body = 14%nat /\
    Base32.decode (secret this) =
      Return (map z2b (Base64.toString random) ++ Utf8.encode (label_text input)) /\
    forall h counter,
      Sha1.createHmac "sha1" = Some h -> 0 <= counter < 2 ^ 64 ->
      _generateTOTP Sha1.createHmac this counter =
        (hotp_calls this (map z2b (Base64.toString random) ++ Utf8.encode (label_text input))
           counter,
         Return (rem (binaryCode
                        (h (map z2b (Base64.toString random) ++ Utf8.encode (label_text input))
                           (Rfc4226.counterBytes counter)))
                     (10 ^ Z.of_nat 6))).
Proof.
  intros random input.
  apply (generated_secret_key Sha1.createHmac random input 0 30 6%nat "sha1"%string).
  reflexivity.
Defined.

(** X12. The size of a generated secret: eight characters for every five
    bytes, begun or whole, of the sixteen base64 characters and the label;
    without a label 32 characters, of which the last six are [=]. *)
Theorem generateSecret_length (random : list byte) (input : jsval) :
  length random = 10%nat ->
  exists buf,
    result (generateSecret random input) = Return (JBuffer buf) /\
    length buf = (8 * ((20 + length (Utf8.encode (label_text input))) / 5))%nat /\
    (label_text input = [] -> length buf = 32%nat /\ skipn 26 buf = repeat x3d 6).
Proof.
  intros Hlen. rewrite generateSecret_cases.
  set (bytes := Utf8.encode (Base64.toString random ++ label_text input)).
  assert (Hbytes : bytes = map z2b (Base64.toString random) ++ Utf8.encode (label_text input))
    by (apply utf8_encode_ascii_app, (base64_ascii _ _ (le_n _))).
  destruct (base64_ten random Hlen) as (body & Hbody & Hblen).
  assert (Hn : length bytes = (16 + length (Utf8.encode (label_text input)))%nat).
  { rewrite Hbytes, length_app, length_map, Hbody, length_app, Hblen. reflexivity. }
  exists (map z2b (Rfc4648.encode bytes)).
  split; [reflexivity|]. split.
  - rewrite length_map, encode_length, Hn. f_equal. f_equal. lia.
  - intros Hnone. rewrite Hnone in Hn. cbn [Utf8.encode length] in Hn.
    split; [rewrite length_map, encode_length, Hn; reflexivity|].
    unfold Rfc4648.encode. rewrite map_app, skipn_app, length_map, length_map.
    rewrite (EncodeLoop.groups_length _ _ (le_n _)), EncodeLoop.bits_length, Hn.
    change ((8 * (16 + 0) + 4) / 5)%nat with 26%nat.
    rewrite skipn_all2 by (rewrite length_map, length_map,
      (EncodeLoop.groups_length _ _ (le_n _)), EncodeLoop.bits_length, Hn; apply le_n).
    reflexivity.
Qed.

(** Ten bytes and no label. *)
Lemma generateSecret_length_witness :
  let random := [x8f; x03; xa1; x5c; xee; x10; x77; xd2; x49; xb6] in
  exists buf,
    result (generateSecret random JUndefined) = Return (JBuffer buf) /\
    length buf = (8 * ((20 + length (Utf8.encode (label_text JUndefined))) / 5))%nat /\
    (label_text JUndefined = [] -> length buf = 32%nat /\ skipn 26 buf = repeat x3d 6).
Proof.
  intros random.
  apply (generateSecret_length random JUndefined).
  reflexivity.
Defined.
